(** * The job posting query engine of [job-posting-mcp]

    A shallow embedding of [server.py] (class [JobPostingServer]), of the
    routes of [web_server.py] and of the tools of [client_server.py] (class
    [JobPostingClient]), with the properties of the engine that the
    specification states and further properties read off the code.

    Modelling conventions.
    - A Python [str] is a [string] of 8-bit characters; [str.lower] maps the
      ASCII capitals to small letters and leaves every other character alone,
      so the model covers ASCII text.
    - A job is a record with the eight fields the engine reads; the JSON
      objects of the data source are assumed to carry them with the types of
      the tool schema.
    - A Python exception is a value of [exn]; a function that may raise
      returns a [result].
    - The object state [self.jobs_data] together with the number of calls
      made to the data source is threaded explicitly ([server]). *)

From Stdlib Require Import Ascii String.
From stdpp Require Import base decidable option list sorting gmap strings.

(** ** Python strings *)

Module Py.

(** [c.lower()] for one character. *)
Definition lower_char (c : ascii) : ascii :=
  let n := nat_of_ascii c in
  if (65 <=? n)%nat && (n <=? 90)%nat then ascii_of_nat (n + 32) else c.

(** [s.lower()] *)
Fixpoint lower (s : string) : string :=
  match s with
  | EmptyString => EmptyString
  | String c s' => String (lower_char c) (lower s')
  end.

(** [hay.startswith(needle)] *)
Fixpoint startswith (needle hay : string) : bool :=
  match needle, hay with
  | EmptyString, _ => true
  | String _ _, EmptyString => false
  | String a n', String b h' => Ascii.eqb a b && startswith n' h'
  end.

(** [needle in hay] on strings: [needle] occurs at some offset of [hay]. *)
Fixpoint str_in (needle hay : string) : bool :=
  startswith needle hay ||
  match hay with
  | EmptyString => false
  | String _ h' => str_in needle h'
  end.

(** [sep.join(parts)] *)
Fixpoint join (sep : string) (parts : list string) : string :=
  match parts with
  | [] => EmptyString
  | [p] => p
  | p :: rest => p +:+ sep +:+ join sep rest
  end.

(** Truthiness of a string: [bool(s)]. *)
Definition truthy (s : string) : bool :=
  match s with EmptyString => false | String _ _ => true end.

(** [a <= b] on strings: lexicographic on character codes. *)
Definition str_le (a b : string) : Prop := String.leb a b = true.

(** [a < b] on strings. *)
Definition str_lt (a b : string) : Prop := String.ltb a b = true.

#[global] Instance str_le_dec (a b : string) : Decision (str_le a b) :=
  decide (String.leb a b = true).

(** [sorted(l)] / [l.sort()] on a list of strings. *)
Definition sorted (l : list string) : list string := merge_sort str_le l.

End Py.

(** ** Exceptions and results *)

Inductive exn : Type :=
| ValueError (msg : string)      (* raised by the engine itself *)
| RequestException               (* [requests.get] raised: no connection, timeout *)
| HTTPError (status : nat)       (* [response.raise_for_status()] *)
| JSONDecodeError                (* a text that is not JSON *)
| AttributeError.                (* [.get] on a JSON value that is no object *)

Inductive result (A : Type) : Type :=
| Ok (a : A)
| Raise (e : exn).
Arguments Ok {A} a.
Arguments Raise {A} e.

(** ** Data model *)

Module Job.
(** One element of the [jobs] array. *)
Record t : Type := mk {
  id : string;
  title : string;
  company : string;
  location : string;
  remote : bool;
  visa_sponsorship : bool;
  experience_level : string;
  tech_stack : list string
}.
End Job.

Module Args.
(** The [arguments] dictionary of a tool call: every key may be absent. *)
Record t : Type := mk {
  query : option string;
  location : option string;
  remote : option bool;
  visa_sponsorship : option bool;
  experience_level : option string;
  job_id : option string
}.

(** [{}] *)
Definition empty : t := mk None None None None None None.
End Args.

(** What [json.dumps] serialises: the dictionaries the engine builds. *)
Inductive payload : Type :=
| SearchResult (total_results : nat) (jobs : list Job.t)
| JobDetails (job : Job.t)
| AllJobs (total_jobs : nat) (jobs : list Job.t)
| Companies (total_companies : nat) (companies : list string)
| Technologies (total_technologies : nat) (technologies : list string)
| Raw (text : string).

(** The [text] of the single [TextContent] a tool returns: either the output
    of [json.dumps] on a payload, or a plain message. *)
Inductive text : Type :=
| Json (p : payload)
| Plain (s : string).

(** ** The engine ([server.py]) *)

(** The f-string of [_search_jobs], before [.lower()]:
    [f"{job['title']} {job['company']} {job['location']} {' '.join(job['tech_stack'])}"] *)
Definition searchable_text (job : Job.t) : string :=
  Job.title job +:+ " " +:+ Job.company job +:+ " " +:+ Job.location job
    +:+ " " +:+ Py.join " " (Job.tech_stack job).

(** [arguments.get(key, '').lower()] *)
Definition get_lower (v : option string) : string :=
  Py.lower (default EmptyString v).

(** The loop of [_search_jobs]: each test that fails moves on to the next job
    ([continue]); a job that passes all of them is appended. *)
Fixpoint search_loop (query location_filter : string)
    (remote_filter visa_filter : option bool) (experience_filter : string)
    (jobs_data filtered_jobs : list Job.t) : list Job.t :=
  match jobs_data with
  | [] => filtered_jobs
  | job :: rest =>
    let next := search_loop query location_filter remote_filter visa_filter
                  experience_filter rest in
    if Py.truthy query
       && negb (Py.str_in query (Py.lower (searchable_text job)))
    then next filtered_jobs
    else if Py.truthy location_filter
            && negb (Py.str_in location_filter (Py.lower (Job.location job)))
    then next filtered_jobs
    else if match remote_filter with
            | Some b => negb (Bool.eqb (Job.remote job) b)
            | None => false
            end
    then next filtered_jobs
    else if match visa_filter with
            | Some b => negb (Bool.eqb (Job.visa_sponsorship job) b)
            | None => false
            end
    then next filtered_jobs
    else if Py.truthy experience_filter
            && negb (Py.str_in experience_filter
                       (Py.lower (Job.experience_level job)))
    then next filtered_jobs
    else next (filtered_jobs ++ [job])
  end.

(** [_search_jobs] *)
Definition search_jobs (jobs_data : list Job.t) (arguments : Args.t) : text :=
  let query := get_lower (Args.query arguments) in
  let location_filter := get_lower (Args.location arguments) in
  let remote_filter := Args.remote arguments in
  let visa_filter := Args.visa_sponsorship arguments in
  let experience_filter := get_lower (Args.experience_level arguments) in
  let filtered_jobs :=
    search_loop query location_filter remote_filter visa_filter
      experience_filter jobs_data [] in
  Json (SearchResult (length filtered_jobs) filtered_jobs).

(** [next((j for j in jobs_data if j["id"] == job_id), None)] *)
Fixpoint next_with_id (jobs_data : list Job.t) (job_id : string)
    : option Job.t :=
  match jobs_data with
  | [] => None
  | j :: rest =>
    if String.eqb (Job.id j) job_id then Some j else next_with_id rest job_id
  end.

(** [f"Job with ID '{job_id}' not found"] *)
Definition not_found_message (job_id : string) : string :=
  "Job with ID '" +:+ job_id +:+ "' not found".

(** The message of the [ValueError] of [_get_job_details]. *)
Definition job_id_required : exn := ValueError "job_id is required".

(** [_get_job_details]. [not job_id] holds for an absent key and for the
    empty string; a job found is a non-empty dictionary, so [not job] holds
    only for [None]. *)
Definition get_job_details (jobs_data : list Job.t) (arguments : Args.t)
    : result text :=
  match Args.job_id arguments with
  | None => Raise job_id_required
  | Some job_id =>
    if negb (Py.truthy job_id) then Raise job_id_required
    else
      match next_with_id jobs_data job_id with
      | None => Ok (Plain (not_found_message job_id))
      | Some job => Ok (Json (JobDetails job))
      end
  end.

(** [_list_all_jobs] *)
Definition list_all_jobs (jobs_data : list Job.t) : text :=
  Json (AllJobs (length jobs_data) jobs_data).

(** [_get_companies]: [list(set(...))] enumerates the set in some order,
    [companies.sort()] then orders it. *)
Definition get_companies (jobs_data : list Job.t) : text :=
  let companies : gset string := list_to_set (Job.company <$> jobs_data) in
  let companies := Py.sorted (elements companies) in
  Json (Companies (length companies) companies).

(** The loop [for job in self.jobs_data: all_techs.update(job["tech_stack"])]. *)
Fixpoint update_all (all_techs : gset string) (jobs_data : list Job.t)
    : gset string :=
  match jobs_data with
  | [] => all_techs
  | job :: rest => update_all (all_techs ∪ list_to_set (Job.tech_stack job)) rest
  end.

(** [_get_tech_stacks] *)
Definition get_tech_stacks (jobs_data : list Job.t) : text :=
  let all_techs := update_all ∅ jobs_data in
  let techs := Py.sorted (elements all_techs) in
  Json (Technologies (length techs) techs).

(** ** The job store and its data source *)

(** The body of a reply of the data source, as [response.json()] and
    [data.get("jobs", [])] see it: a text that is not JSON, a JSON value that
    is not an object, or an object whose [jobs] member is absent or an array
    of jobs.  (A [jobs] member of another type is stored as it is by the code
    and is not covered.) *)
Inductive document : Type :=
| NotJson
| NotObject
| Object (jobs : option (list Job.t)).

(** The outcome of [requests.get(JOBS_API_URL, timeout=10)]. *)
Inductive reply : Type :=
| NoReply                                        (* the call raised *)
| Response (status_code : nat) (body : document).

(** The data source: the reply to the n-th call, counted from 0. *)
Definition source : Type := nat -> reply.

(** The state of a [JobPostingServer], with the number of calls made to the
    data source so far. *)
Record server : Type := mk_server {
  jobs_data : list Job.t;
  fetches : nat
}.

(** [JobPostingServer()]: [self.jobs_data = []]. *)
Definition init : server := mk_server [] 0.

(** [response.raise_for_status()]: the 4xx and 5xx codes raise. *)
Definition raise_for_status (status_code : nat) : result unit :=
  if (400 <=? status_code)%nat && (status_code <? 600)%nat
  then Raise (HTTPError status_code)
  else Ok tt.

(** [response.json()] followed by [data.get("jobs", [])]. *)
Definition jobs_of_body (body : document) : result (list Job.t) :=
  match body with
  | NotJson => Raise JSONDecodeError
  | NotObject => Raise AttributeError
  | Object jobs => Ok (default [] jobs)
  end.

(** [_load_jobs_data]: the [except] clause logs and raises again, so every
    exception of the [try] block reaches the caller, and [self.jobs_data] is
    assigned only when none was raised. *)
Definition load_jobs_data (src : source) (self : server)
    : result unit * server :=
  match jobs_data self with
  | [] =>
    let called := mk_server (jobs_data self) (S (fetches self)) in
    match src (fetches self) with
    | NoReply => (Raise RequestException, called)
    | Response status_code body =>
      match raise_for_status status_code with
      | Raise e => (Raise e, called)
      | Ok _ =>
        match jobs_of_body body with
        | Raise e => (Raise e, called)
        | Ok jobs => (Ok tt, mk_server jobs (S (fetches self)))
        end
      end
    end
  | _ :: _ => (Ok tt, self)
  end.

(** [handle_call_tool]: the store is loaded first, whatever the tool;
    [arguments or {}] turns an absent dictionary into the empty one. *)
Definition handle_call_tool (src : source) (name : string)
    (arguments : option Args.t) (self : server) : result text * server :=
  match load_jobs_data src self with
  | (Raise e, self') => (Raise e, self')
  | (Ok _, self') =>
    let arguments := default Args.empty arguments in
    let store := jobs_data self' in
    if String.eqb name "search_jobs" then (Ok (search_jobs store arguments), self')
    else if String.eqb name "get_job_details"
    then (get_job_details store arguments, self')
    else if String.eqb name "list_all_jobs" then (Ok (list_all_jobs store), self')
    else if String.eqb name "get_companies" then (Ok (get_companies store), self')
    else if String.eqb name "get_tech_stacks"
    then (Ok (get_tech_stacks store), self')
    else (Raise (ValueError ("Unknown tool: " +:+ name)), self')
  end.

(** ** The lookup route of the HTTP adapter ([web_server.py]) *)

(** Skips the blanks the JSON decoder skips before a value. *)
Fixpoint skip_blanks (s : string) : string :=
  match s with
  | String c s' =>
    if (Ascii.eqb c " " || Ascii.eqb c "009" || Ascii.eqb c "010"
        || Ascii.eqb c "013")%bool
    then skip_blanks s' else s
  | EmptyString => s
  end.

(** The characters at which the decoder's scanner starts on a value: a
    string, an object, an array, [null], [true], [false], a number, [NaN],
    [Infinity], [-Infinity]. *)
Definition value_start (c : ascii) : bool :=
  let n := nat_of_ascii c in
  ((n =? 34)%nat || Ascii.eqb c "{" || Ascii.eqb c "[" || Ascii.eqb c "n"
   || Ascii.eqb c "t" || Ascii.eqb c "f" || Ascii.eqb c "-" || Ascii.eqb c "N"
   || Ascii.eqb c "I" || ((48 <=? n)%nat && (n <=? 57)%nat))%bool.

(** [json.loads]. The output of [json.dumps] decodes to the payload that was
    serialised. A plain text is followed as far as the scanner's first
    step: when its first character after the blanks starts no JSON value the
    decoder raises; any other plain text is left undecoded ([Raw]), the
    engine produces none ([get_job_details_text]). *)
Definition json_loads (t : text) : result payload :=
  match t with
  | Json p => Ok p
  | Plain s =>
    match skip_blanks s with
    | String c _ => if value_start c then Ok (Raw s) else Raise JSONDecodeError
    | EmptyString => Raise JSONDecodeError
    end
  end.

(** What a route answers: the JSON body of a 200 response, or the
    [HTTPException] raised, whose detail is [str(e)]. *)
Inductive http_response : Type :=
| Http200 (body : payload)
| HTTPException (status_code : nat) (detail : exn).

(** [get_job], the handler of [GET /jobs/{job_id}]: every exception of the
    [try] block becomes [HTTPException(status_code=500)]. *)
Definition get_job (job_server : server) (job_id : string) : http_response :=
  match get_job_details (jobs_data job_server)
          (Args.mk None None None None None (Some job_id)) with
  | Raise e => HTTPException 500 e
  | Ok t =>
    match json_loads t with
    | Raise e => HTTPException 500 e
    | Ok p => Http200 p
    end
  end.

(** The status code of an answer. *)
Definition status_of (r : http_response) : nat :=
  match r with
  | Http200 _ => 200
  | HTTPException status_code _ => status_code
  end.

(** ** Vocabulary of the specification *)

(** [needle] is a substring of [hay]. *)
Definition contains (needle hay : string) : Prop :=
  ∃ pre post, hay = pre +:+ needle +:+ post.

(** [needle] is a substring of [hay], case-insensitively. *)
Definition contains_ci (needle hay : string) : Prop :=
  contains (Py.lower needle) (Py.lower hay).

(** The query occurs in one of the four searched fields of the job, the
    technologies being taken one by one. *)
Definition in_some_field (query : string) (job : Job.t) : Prop :=
  contains_ci query (Job.title job)
  ∨ contains_ci query (Job.company job)
  ∨ contains_ci query (Job.location job)
  ∨ ∃ tech, tech ∈ Job.tech_stack job ∧ contains_ci query tech.

(** A text filter: absent or empty it constrains nothing, otherwise the
    field has to contain it, case-insensitively. *)
Definition text_filter (wanted : option string) (field : string) : Prop :=
  ∀ s, wanted = Some s → s ≠ EmptyString → contains_ci s field.

(** A boolean filter: absent it constrains nothing, otherwise the field has
    to equal it. *)
Definition flag_filter (wanted : option bool) (field : bool) : Prop :=
  ∀ b, wanted = Some b → field = b.

(** The job passes every filter of the criteria. *)
Definition satisfies (criteria : Args.t) (job : Job.t) : Prop :=
  text_filter (Args.query criteria) (searchable_text job)
  ∧ text_filter (Args.location criteria) (Job.location job)
  ∧ flag_filter (Args.remote criteria) (Job.remote job)
  ∧ flag_filter (Args.visa_sponsorship criteria) (Job.visa_sponsorship job)
  ∧ text_filter (Args.experience_level criteria) (Job.experience_level job).

(** The criteria [{query}]. *)
Definition query_only (query : string) : Args.t :=
  Args.mk (Some query) None None None None None.

(** The arguments [{job_id}]. *)
Definition id_only (job_id : string) : Args.t :=
  Args.mk None None None None None (Some job_id).

(** The [jobs] member of a search or listing result. *)
Definition jobs_in (t : text) : list Job.t :=
  match t with
  | Json (SearchResult _ jobs) | Json (AllJobs _ jobs) => jobs
  | _ => []
  end.

(** [job] is the first job of the store, in its order, with the given id. *)
Definition first_with_id (store : list Job.t) (job_id : string) (job : Job.t)
    : Prop :=
  ∃ before after, store = before ++ job :: after
    ∧ Job.id job = job_id
    ∧ ∀ other, other ∈ before → Job.id other ≠ job_id.

(** The lookup arguments carry no id: the dictionary is absent, the key is
    absent, or the id is the empty string. *)
Definition missing_id (arguments : option Args.t) : Prop :=
  Args.job_id (default Args.empty arguments) = None
  ∨ Args.job_id (default Args.empty arguments) = Some EmptyString.

(** The error kinds of the specification, as the exceptions of the code. *)
Definition InvalidArgument (e : exn) : Prop := e = job_id_required.

Definition DataSourceError (e : exn) : Prop :=
  match e with
  | RequestException | HTTPError _ | JSONDecodeError | AttributeError => True
  | ValueError _ => False
  end.

(** The fetch failed: no reply, or a reply with an error status. *)
Definition fetch_failed (r : reply) : Prop :=
  match r with
  | NoReply => True
  | Response status_code _ => 400 ≤ status_code < 600
  end.

(** The reply is not a JSON document with a [jobs] array. *)
Definition wrong_shape (r : reply) : Prop :=
  match r with
  | NoReply => False
  | Response _ (Object (Some _)) => False
  | Response _ _ => True
  end.

(** The reply is not a JSON object at all. *)
Definition not_an_object (r : reply) : Prop :=
  match r with
  | Response _ NotJson | Response _ NotObject => True
  | _ => False
  end.

(** The five tests of the loop of [_search_jobs] as one boolean: no test said
    [continue]. *)
Definition passes (query location_filter : string)
    (remote_filter visa_filter : option bool) (experience_filter : string)
    (job : Job.t) : bool :=
  negb (Py.truthy query
        && negb (Py.str_in query (Py.lower (searchable_text job))))
  && negb (Py.truthy location_filter
           && negb (Py.str_in location_filter (Py.lower (Job.location job))))
  && negb (match remote_filter with
           | Some b => negb (Bool.eqb (Job.remote job) b)
           | None => false
           end)
  && negb (match visa_filter with
           | Some b => negb (Bool.eqb (Job.visa_sponsorship job) b)
           | None => false
           end)
  && negb (Py.truthy experience_filter
           && negb (Py.str_in experience_filter
                      (Py.lower (Job.experience_level job)))).

(** [passes] at the filters [_search_jobs] reads from the criteria. *)
Definition kept (criteria : Args.t) : Job.t → bool :=
  passes (get_lower (Args.query criteria)) (get_lower (Args.location criteria))
    (Args.remote criteria) (Args.visa_sponsorship criteria)
    (get_lower (Args.experience_level criteria)).

(** ** Sample data: the store of the scenarios *)

Definition job1 : Job.t :=
  Job.mk "1" "Backend Engineer" "Acme" "Remote" true false "Senior"
    ["Go"; "Postgres"].

Definition job2 : Job.t :=
  Job.mk "job-1" "Data Engineer" "Acme" "Berlin" false true "Mid"
    ["Go"; "Spark"].

(** A source that never answers, one that always answers 500, one that
    answers an object without [jobs], and one that serves the two jobs. *)
Definition src_down : source := λ _, NoReply.
Definition src_500 : source := λ _, Response 500 NotJson.
Definition src_no_jobs : source := λ _, Response 200 (Object None).
Definition src_two : source := λ _, Response 200 (Object (Some [job1; job2])).

(** ** Serving a sequence of tool calls *)

(** The state after the calls of [handle_call_tool] for each request of the
    list, in order; the answers are dropped. *)
Fixpoint serve_all (src : source) (calls : list (string * option Args.t))
    (self : server) : server :=
  match calls with
  | [] => self
  | (name, arguments) :: rest =>
    serve_all src rest (handle_call_tool src name arguments self).2
  end.

(** The jobs a reply makes the load store: those of a [jobs] array under a
    status that does not raise, none otherwise. *)
Definition jobs_served (r : reply) : list Job.t :=
  match r with
  | Response status_code (Object (Some jobs)) =>
    match raise_for_status status_code with
    | Ok _ => jobs
    | Raise _ => []
    end
  | _ => []
  end.

(** The names [handle_call_tool] dispatches on. *)
Definition tool_names : list string :=
  ["search_jobs"; "get_job_details"; "list_all_jobs"; "get_companies";
   "get_tech_stacks"].

(** The [companies], resp. [technologies], member of a result. *)
Definition names_in (t : text) : list string :=
  match t with
  | Json (Companies _ names) | Json (Technologies _ names) => names
  | _ => []
  end.

(** The count a result carries. *)
Definition total_in (t : text) : nat :=
  match t with
  | Json (SearchResult n _) | Json (AllJobs n _) | Json (Companies n _)
  | Json (Technologies n _) => n
  | _ => 0
  end.

(** ** The other routes of the HTTP adapter ([web_server.py]) *)

(** The handlers read the global [job_server]; here it is a parameter, the
    server that [startup] made. *)
Module Web.

(** [startup]: a fresh [JobPostingServer] whose store is loaded at once. *)
Definition startup (src : source) : result unit * server :=
  load_jobs_data src init.

(** [list_jobs], the handler of [GET /jobs]. *)
Definition list_jobs (job_server : server) : http_response :=
  match json_loads (list_all_jobs (jobs_data job_server)) with
  | Raise e => HTTPException 500 e
  | Ok p => Http200 p
  end.

(** The dictionary [args] that [search_jobs] builds from its parameters:
    [query] always, the others when they are set. *)
Definition search_args (query location : string)
    (remote visa_sponsorship : option bool) (experience_level : string)
    : Args.t :=
  Args.mk (Some query)
    (if Py.truthy location then Some location else None)
    remote visa_sponsorship
    (if Py.truthy experience_level then Some experience_level else None)
    None.

(** [search_jobs], the handler of [GET /jobs/search]; the parameters left
    out of the request arrive as the defaults of the signature, the empty
    string and [None]. *)
Definition search_jobs (job_server : server) (query location : string)
    (remote visa_sponsorship : option bool) (experience_level : string)
    : http_response :=
  let args :=
    search_args query location remote visa_sponsorship experience_level in
  match json_loads (search_jobs (jobs_data job_server) args) with
  | Raise e => HTTPException 500 e
  | Ok p => Http200 p
  end.

(** [get_companies], the handler of [GET /companies]. *)
Definition get_companies (job_server : server) : http_response :=
  match json_loads (get_companies (jobs_data job_server)) with
  | Raise e => HTTPException 500 e
  | Ok p => Http200 p
  end.

(** [get_technologies], the handler of [GET /technologies]. *)
Definition get_technologies (job_server : server) : http_response :=
  match json_loads (get_tech_stacks (jobs_data job_server)) with
  | Raise e => HTTPException 500 e
  | Ok p => Http200 p
  end.

End Web.

(** ** The client of the deployed API ([client_server.py]) *)

Module Client.

(** A JSON document the API answers with: a payload, or the
    [{"detail": ...}] object of an [HTTPException]. *)
Inductive json_body : Type :=
| Payload (p : payload)
| Detail (e : exn).

(** The outcome of [requests.get(url, params=params, timeout=10)]: the call
    raised, or a response with its status and its body ([None]: the body is
    not JSON). *)
Inductive api_reply : Type :=
| Unreachable
| Reply (status_code : nat) (body : option json_body).

(** The API as the client sees it: the reply to a [GET] of a path under
    [API_BASE_URL] with the given query parameters. *)
Definition api : Type := string → Args.t → api_reply.

(** The text the client returns: [json.dumps(response.json(), indent=2)], or
    [f"Error: {str(e)}"]. *)
Inductive out : Type :=
| Dumps (b : json_body)
| ErrorText (e : exn).

(** The three steps every tool of the client ends with: the request,
    [response.raise_for_status()], [json.dumps(response.json())]. *)
Definition get_json (a : api) (path : string) (params : Args.t)
    : result json_body :=
  match a path params with
  | Unreachable => Raise RequestException
  | Reply status_code body =>
    match raise_for_status status_code with
    | Raise e => Raise e
    | Ok _ =>
      match body with
      | None => Raise JSONDecodeError
      | Some b => Ok b
      end
    end
  end.

(** [if arguments.get(key): params[key] = arguments[key]] *)
Definition if_set (v : option string) : option string :=
  match v with
  | Some s => if Py.truthy s then Some s else None
  | None => None
  end.

(** The [params] of [_search_jobs]. *)
Definition search_params (arguments : Args.t) : Args.t :=
  Args.mk (if_set (Args.query arguments)) (if_set (Args.location arguments))
    (Args.remote arguments) (Args.visa_sponsorship arguments)
    (if_set (Args.experience_level arguments)) None.

(** [_search_jobs] *)
Definition search_jobs (a : api) (arguments : Args.t) : result json_body :=
  get_json a "/jobs/search" (search_params arguments).

(** [_get_job_details] *)
Definition get_job_details (a : api) (arguments : Args.t)
    : result json_body :=
  match Args.job_id arguments with
  | None => Raise job_id_required
  | Some job_id =>
    if negb (Py.truthy job_id) then Raise job_id_required
    else get_json a ("/jobs/" +:+ job_id) Args.empty
  end.

(** [_list_all_jobs], [_get_companies], [_get_tech_stacks] *)
Definition list_all_jobs (a : api) : result json_body :=
  get_json a "/jobs" Args.empty.

Definition get_companies (a : api) : result json_body :=
  get_json a "/companies" Args.empty.

Definition get_tech_stacks (a : api) : result json_body :=
  get_json a "/technologies" Args.empty.

(** [handle_call_tool]: the dispatch runs inside [try]; every exception is
    turned into an error text. *)
Definition handle_call_tool (a : api) (name : string)
    (arguments : option Args.t) : out :=
  let arguments := default Args.empty arguments in
  let called :=
    if String.eqb name "search_jobs" then search_jobs a arguments
    else if String.eqb name "get_job_details" then get_job_details a arguments
    else if String.eqb name "list_all_jobs" then list_all_jobs a
    else if String.eqb name "get_companies" then get_companies a
    else if String.eqb name "get_tech_stacks" then get_tech_stacks a
    else Raise (ValueError ("Unknown tool: " +:+ name)) in
  match called with
  | Ok b => Dumps b
  | Raise e => ErrorText e
  end.

(** The response the HTTP adapter sends for the answer of a handler. *)
Definition sent (r : http_response) : api_reply :=
  match r with
  | Http200 p => Reply 200 (Some (Payload p))
  | HTTPException status_code e => Reply status_code (Some (Detail e))
  end.

(** The API serves the search route of [job_server]: parameters left out
    take the defaults of the handler's signature. *)
Definition serves_search (a : api) (job_server : server) : Prop :=
  ∀ params,
    a "/jobs/search" params
    = sent (Web.search_jobs job_server
              (default EmptyString (Args.query params))
              (default EmptyString (Args.location params))
              (Args.remote params) (Args.visa_sponsorship params)
              (default EmptyString (Args.experience_level params))).

(** The API serves the lookup route of [job_server] for the id. *)
Definition serves_lookup (a : api) (job_server : server) (job_id : string)
    : Prop :=
  a ("/jobs/" +:+ job_id) Args.empty = sent (get_job job_server job_id).

(** An API that answers the search path and the lookup of [99] as the
    adapter over [job_server] does, and nothing else. *)
Definition sample_api (job_server : server) : api :=
  λ path params,
    if String.eqb path "/jobs/search"
    then sent (Web.search_jobs job_server
                 (default EmptyString (Args.query params))
                 (default EmptyString (Args.location params))
                 (Args.remote params) (Args.visa_sponsorship params)
                 (default EmptyString (Args.experience_level params)))
    else if String.eqb path "/jobs/99" then sent (get_job job_server "99")
    else Unreachable.

End Client.

(** * Properties *)

(** ** Python strings *)

Section py_facts.
Implicit Types needle hay s : string.

Lemma startswith_spec needle hay :
  Py.startswith needle hay = true ↔ ∃ post, hay = needle +:+ post.
Proof.
  revert hay. induction needle as [|a needle IH]; intros [|b hay]; simpl.
  - split; [exists EmptyString; reflexivity | reflexivity].
  - split; [intros _; eexists; reflexivity | reflexivity].
  - split; [discriminate | intros [post H]; discriminate].
  - rewrite andb_true_iff, Ascii.eqb_eq, IH. split.
    + intros [-> [post ->]]. exists post. reflexivity.
    + intros [post H]. injection H as -> ->. split; [reflexivity | eauto].
Qed.

Lemma str_in_spec needle hay :
  Py.str_in needle hay = true ↔ contains needle hay.
Proof.
  unfold contains. induction hay as [|c hay IH].
  - simpl. rewrite orb_false_r, startswith_spec. split.
    + intros [post H]. exists EmptyString, post. exact H.
    + intros [[|? pre] [post H]]; [exists post; exact H | discriminate].
  - cbn [Py.str_in]. rewrite orb_true_iff, startswith_spec, IH. split.
    + intros [[post H] | [pre [post H]]].
      * exists EmptyString, post. exact H.
      * exists (String c pre), post. simpl. rewrite H. reflexivity.
    + intros [[|c' pre] [post H]].
      * left. exists post. exact H.
      * right. simpl in H. injection H as -> ->. eauto.
Qed.

Lemma str_in_false needle hay :
  Py.str_in needle hay = false → ¬ contains needle hay.
Proof. intros H C. apply str_in_spec in C. congruence. Qed.

Lemma truthy_lower s : Py.truthy (Py.lower s) = Py.truthy s.
Proof. destruct s; reflexivity. Qed.

Lemma truthy_spec s : Py.truthy s = true ↔ s ≠ EmptyString.
Proof. destruct s; simpl; split; congruence. Qed.

Lemma contains_ci_spec needle hay :
  Py.str_in (Py.lower needle) (Py.lower hay) = true ↔ contains_ci needle hay.
Proof. apply str_in_spec. Qed.
End py_facts.

(** ** Search *)

Section search_facts.
Variables (query location_filter : string).
Variables (remote_filter visa_filter : option bool).
Variable (experience_filter : string).

Let loop := search_loop query location_filter remote_filter visa_filter
              experience_filter.
Let pass := passes query location_filter remote_filter visa_filter
              experience_filter.

Lemma search_loop_step job rest filtered_jobs :
  loop (job :: rest) filtered_jobs
  = loop rest (if pass job then filtered_jobs ++ [job] else filtered_jobs).
Proof.
  unfold loop, pass, passes. cbn [search_loop].
  repeat (match goal with
          | |- context [if ?b then _ else _] =>
            lazymatch b with
            | negb _ && _ => fail
            | _ => destruct b eqn:?
            end
          end; cbn [negb andb]); reflexivity.
Qed.

Lemma search_loop_filter jobs filtered_jobs :
  loop jobs filtered_jobs = filtered_jobs ++ List.filter pass jobs.
Proof.
  revert filtered_jobs. induction jobs as [|job rest IH]; intros acc.
  - simpl. rewrite app_nil_r. reflexivity.
  - rewrite search_loop_step, IH. simpl. destruct (pass job).
    + rewrite <- app_assoc. reflexivity.
    + reflexivity.
Qed.
End search_facts.

Lemma text_test_spec (wanted : option string) (field : string) :
  Py.truthy (get_lower wanted)
  && negb (Py.str_in (get_lower wanted) (Py.lower field)) = false
  ↔ text_filter wanted field.
Proof.
  unfold text_filter, get_lower. rewrite truthy_lower.
  destruct wanted as [[|c s]|]; simpl default.
  - split; [intros _ s [= <-] Hs; congruence | reflexivity].
  - cbn [Py.truthy andb]. rewrite negb_false_iff, contains_ci_spec. split.
    + intros H s' [= <-] _. exact H.
    + intros H. apply (H _ eq_refl). discriminate.
  - split; [intros _ s [=] | reflexivity].
Qed.

Lemma flag_test_spec (wanted : option bool) (field : bool) :
  match wanted with
  | Some b => negb (Bool.eqb field b)
  | None => false
  end = false
  ↔ flag_filter wanted field.
Proof.
  unfold flag_filter. destruct wanted as [b|].
  - rewrite negb_false_iff, Bool.eqb_true_iff. split.
    + intros -> b' [= <-]. reflexivity.
    + intros H. apply H. reflexivity.
  - split; [intros _ b [=] | reflexivity].
Qed.

Lemma kept_spec (criteria : Args.t) (job : Job.t) :
  kept criteria job = true ↔ satisfies criteria job.
Proof.
  unfold kept, passes, satisfies.
  rewrite !andb_true_iff, !negb_true_iff, !text_test_spec, !flag_test_spec.
  tauto.
Qed.

Lemma search_jobs_unfold (store : list Job.t) (criteria : Args.t) :
  search_jobs store criteria
  = Json (SearchResult (length (List.filter (kept criteria) store))
            (List.filter (kept criteria) store)).
Proof.
  unfold search_jobs, kept. rewrite search_loop_filter. reflexivity.
Qed.

Lemma jobs_in_search (store : list Job.t) (criteria : Args.t) (job : Job.t) :
  job ∈ jobs_in (search_jobs store criteria)
  ↔ job ∈ store ∧ satisfies criteria job.
Proof.
  rewrite search_jobs_unfold. simpl.
  rewrite list_elem_of_In, filter_In, <- list_elem_of_In, kept_spec.
  reflexivity.
Qed.

(** C2. For every store and criteria, the jobs of [search_jobs] are the
    records of the store that satisfy every provided filter (location,
    remote, visa sponsorship, experience level and query; an absent or empty
    filter constrains nothing), in the order of the store, and
    [total_results] is their number. *)
Theorem search_jobs_is_filter (store : list Job.t) (criteria : Args.t) :
  ∃ keep : Job.t → bool,
    (∀ job, keep job = true ↔ satisfies criteria job)
    ∧ search_jobs store criteria
      = Json (SearchResult (length (List.filter keep store))
                (List.filter keep store))
    ∧ (∀ job, job ∈ jobs_in (search_jobs store criteria)
              ↔ job ∈ store ∧ satisfies criteria job)
    ∧ jobs_in (search_jobs store criteria) `sublist_of` store.
Proof.
  exists (kept criteria). split; [apply kept_spec |].
  split; [apply search_jobs_unfold |].
  split; [apply jobs_in_search |].
  rewrite search_jobs_unfold. simpl.
  induction store as [|job rest IH]; simpl.
  - constructor.
  - destruct (kept criteria job); [apply sublist_skip | apply sublist_cons];
      exact IH.
Qed.

(** A query that spans the company and the location of [job1]. *)
Lemma spanning_query_kept :
  job1 ∈ jobs_in (search_jobs [job1] (query_only "acme remote")).
Proof. vm_compute. apply list_elem_of_here. Qed.

Lemma spanning_query_in_no_field : ¬ in_some_field "acme remote" job1.
Proof.
  intros [H | [H | [H | [tech [Hin H]]]]].
  - revert H. apply str_in_false. reflexivity.
  - revert H. apply str_in_false. reflexivity.
  - revert H. apply str_in_false. reflexivity.
  - simpl in Hin. apply list_elem_of_In in Hin.
    destruct Hin as [<- | [<- | []]]; revert H; apply str_in_false;
      reflexivity.
Qed.

(** C1, as the specification states it, fails: the query [acme remote] keeps
    [job1], and none of its title, company, location and technologies
    contains it. *)
Lemma search_query_in_some_field_fails :
  ¬ (∀ (store : list Job.t) (query : string),
       query ≠ EmptyString →
       ∀ job, job ∈ jobs_in (search_jobs store (query_only query)) →
              in_some_field query job).
Proof.
  intros claim. apply spanning_query_in_no_field.
  apply (claim [job1]); [discriminate | apply spanning_query_kept].
Qed.

(** C1, amended. For every store and non-empty query, every record of the
    result of [search_jobs] with that query alone contains the query,
    case-insensitively, in the text made of its title, company, location and
    technologies joined by single spaces. *)
Theorem search_query_in_searchable_text
    (store : list Job.t) (query : string) (job : Job.t) :
  query ≠ EmptyString →
  job ∈ jobs_in (search_jobs store (query_only query)) →
  contains_ci query (searchable_text job).
Proof.
  intros Hq Hin. apply jobs_in_search in Hin as [_ [Hquery _]].
  apply (Hquery query); [reflexivity | exact Hq].
Qed.

Lemma search_query_in_searchable_text_witness :
  "acme" ≠ EmptyString
  ∧ job1 ∈ jobs_in (search_jobs [job1] (query_only "acme"))
  ∧ contains_ci "acme" (searchable_text job1).
Proof.
  assert (Hq : "acme" ≠ EmptyString) by discriminate.
  assert (Hin : job1 ∈ jobs_in (search_jobs [job1] (query_only "acme")))
    by (vm_compute; apply list_elem_of_here).
  split; [exact Hq | split; [exact Hin |]].
  exact (search_query_in_searchable_text [job1] "acme" job1 Hq Hin).
Defined.

(** C10. Because the query is matched against the joined text, there are a
    store, a non-empty query with a space and a record kept by the search
    although the query is a substring of none of the record's fields: it
    spans the space between the company and the location. *)
Theorem search_query_spans_fields :
  ∃ (store : list Job.t) (query : string) (job : Job.t),
    query ≠ EmptyString
    ∧ contains " " query
    ∧ job ∈ jobs_in (search_jobs store (query_only query))
    ∧ ¬ in_some_field query job
    ∧ ¬ contains_ci query (Py.join " " (Job.tech_stack job))
    ∧ contains_ci query (Job.company job +:+ " " +:+ Job.location job).
Proof.
  exists [job1], "acme remote", job1.
  split; [discriminate |].
  split; [exists "acme", "remote"; reflexivity |].
  split; [apply spanning_query_kept |].
  split; [apply spanning_query_in_no_field |].
  split; [apply str_in_false; reflexivity |].
  exists EmptyString, EmptyString. reflexivity.
Qed.

(** ** Lookup by id *)

Lemma next_with_id_first (store : list Job.t) (job_id : string) (job : Job.t) :
  next_with_id store job_id = Some job ↔ first_with_id store job_id job.
Proof.
  unfold first_with_id. induction store as [|j rest IH]; simpl.
  - split; [discriminate | intros ([|? ?] & ? & [=] & _)].
  - destruct (String.eqb (Job.id j) job_id) eqn:E.
    + apply String.eqb_eq in E. split.
      * intros [= <-]. exists [], rest. split; [reflexivity |].
        split; [exact E |]. intros other Hin. inversion Hin.
      * intros ([|j' before] & after & Hstore & Hid & Hbefore).
        -- injection Hstore as -> _. reflexivity.
        -- injection Hstore as <- _. exfalso.
           apply (Hbefore j); [apply list_elem_of_here | exact E].
    + apply String.eqb_neq in E. rewrite IH. split.
      * intros (before & after & -> & Hid & Hbefore).
        exists (j :: before), after. split; [reflexivity |].
        split; [exact Hid |]. intros other Hin.
        apply elem_of_cons in Hin as [-> | Hin]; [exact E | auto].
      * intros ([|j' before] & after & Hstore & Hid & Hbefore).
        -- injection Hstore as <- _. contradiction.
        -- injection Hstore as _ ->. exists before, after.
           split; [reflexivity |]. split; [exact Hid |].
           intros other Hin. apply Hbefore. apply list_elem_of_further, Hin.
Qed.

Lemma next_with_id_none (store : list Job.t) (job_id : string) :
  next_with_id store job_id = None
  ↔ ∀ job, job ∈ store → Job.id job ≠ job_id.
Proof.
  induction store as [|j rest IH]; simpl.
  - split; [intros _ job Hin; inversion Hin | reflexivity].
  - destruct (String.eqb (Job.id j) job_id) eqn:E.
    + apply String.eqb_eq in E. split; [discriminate |].
      intros H. exfalso. apply (H j); [apply list_elem_of_here | exact E].
    + apply String.eqb_neq in E. rewrite IH. split.
      * intros H job Hin.
        apply elem_of_cons in Hin as [-> | Hin]; [exact E | auto].
      * intros H job Hin. apply H. apply list_elem_of_further, Hin.
Qed.

Lemma get_job_details_nonempty (store : list Job.t) (job_id : string) :
  job_id ≠ EmptyString →
  get_job_details store (id_only job_id)
  = match next_with_id store job_id with
    | None => Ok (Plain (not_found_message job_id))
    | Some job => Ok (Json (JobDetails job))
    end.
Proof.
  intros H. unfold get_job_details. simpl.
  apply truthy_spec in H. rewrite H. reflexivity.
Qed.

(** C3, as the specification states it, fails for the empty id: on the empty
    store no record matches it, and the lookup raises instead of answering
    that nothing was found. *)
Lemma get_by_id_every_string_fails :
  ¬ (∀ (store : list Job.t) (job_id : string),
       (∀ job, first_with_id store job_id job →
               get_job_details store (id_only job_id)
               = Ok (Json (JobDetails job)))
       ∧ ((∀ job, job ∈ store → Job.id job ≠ job_id) →
          get_job_details store (id_only job_id)
          = Ok (Plain (not_found_message job_id)))).
Proof.
  intros claim. destruct (claim [] EmptyString) as [_ H].
  discriminate H. intros job Hin. inversion Hin.
Qed.

(** C3, amended. For every store and every non-empty id string, the lookup
    returns the first record in store order whose id is exactly the given
    string; when no record has that id it returns, without raising, the
    not-found message, which differs from every successful answer; and a
    record with id [job-1] is not returned for the id [JOB-1]. *)
Theorem get_by_id_first_exact (store : list Job.t) (job_id : string) :
  job_id ≠ EmptyString →
  (∀ job, first_with_id store job_id job →
          get_job_details store (id_only job_id) = Ok (Json (JobDetails job)))
  ∧ ((∀ job, job ∈ store → Job.id job ≠ job_id) →
     get_job_details store (id_only job_id)
     = Ok (Plain (not_found_message job_id)))
  ∧ (∀ job, get_job_details store (id_only job_id) = Ok (Json (JobDetails job))
            → first_with_id store job_id job)
  ∧ (∀ job, Job.id job = "job-1" →
            get_job_details store (id_only "JOB-1")
            ≠ Ok (Json (JobDetails job))).
Proof.
  intros Hid. rewrite get_job_details_nonempty by exact Hid.
  split; [| split; [| split]].
  - intros job H. apply next_with_id_first in H. rewrite H. reflexivity.
  - intros H. apply next_with_id_none in H. rewrite H. reflexivity.
  - intros job H. apply next_with_id_first.
    destruct (next_with_id store job_id); [congruence | discriminate].
  - intros job Hjob H. rewrite get_job_details_nonempty in H by discriminate.
    destruct (next_with_id store "JOB-1") as [found|] eqn:E; [| discriminate].
    injection H as ->. apply next_with_id_first in E as (_ & _ & _ & E & _).
    rewrite Hjob in E. discriminate.
Qed.

Lemma get_by_id_first_exact_witness :
  "job-1" ≠ EmptyString
  ∧ get_job_details [job1; job2] (id_only "job-1") = Ok (Json (JobDetails job2))
  ∧ get_job_details [job1] (id_only "job-1")
    = Ok (Plain (not_found_message "job-1")).
Proof.
  assert (Hid : "job-1" ≠ EmptyString) by discriminate.
  split; [exact Hid | split].
  - apply (get_by_id_first_exact [job1; job2] "job-1" Hid).
    exists [job1], []. split; [reflexivity | split; [reflexivity |]].
    intros other Hin. apply list_elem_of_In in Hin.
    destruct Hin as [<- | []]. discriminate.
  - apply (get_by_id_first_exact [job1] "job-1" Hid).
    intros job Hin. apply list_elem_of_In in Hin.
    destruct Hin as [<- | []]. discriminate.
Defined.

(** ** Loading the store *)

Lemma raise_for_status_error (status_code : nat) :
  400 ≤ status_code < 600 →
  raise_for_status status_code = Raise (HTTPError status_code).
Proof.
  intros [Hlo Hhi]. unfold raise_for_status.
  apply Nat.leb_le in Hlo. apply Nat.ltb_lt in Hhi.
  rewrite Hlo, Hhi. reflexivity.
Qed.

Lemma raise_for_status_cases (status_code : nat) :
  raise_for_status status_code = Raise (HTTPError status_code)
  ∨ raise_for_status status_code = Ok tt.
Proof. unfold raise_for_status. destruct (_ && _); auto. Qed.

(** A load that raises leaves the store as it was and has called the source
    once; the exception is one of the fetch. *)
Lemma load_raises (src : source) (self : server) (e : exn) (self' : server) :
  load_jobs_data src self = (Raise e, self') →
  DataSourceError e
  ∧ jobs_data self = []
  ∧ self' = mk_server [] (S (fetches self)).
Proof.
  unfold load_jobs_data. destruct (jobs_data self) as [|j js]; [| discriminate].
  destruct (src (fetches self)) as [|code body].
  - intros [= <- <-]. repeat split.
  - destruct (raise_for_status_cases code) as [-> | ->].
    + intros [= <- <-]. repeat split.
    + destruct body as [| |jobs]; simpl; intros [= <- <-] || discriminate;
        repeat split.
Qed.

(** What the tool handler does once the store is loaded or fails to load. *)
Lemma handle_call_tool_load_raises (src : source) (name : string)
    (arguments : option Args.t) (self self' : server) (e : exn) :
  load_jobs_data src self = (Raise e, self') →
  handle_call_tool src name arguments self = (Raise e, self').
Proof. intros H. unfold handle_call_tool. rewrite H. reflexivity. Qed.

Lemma handle_call_tool_lookup (src : source) (arguments : option Args.t)
    (self self' : server) :
  load_jobs_data src self = (Ok tt, self') →
  handle_call_tool src "get_job_details" arguments self
  = (get_job_details (jobs_data self') (default Args.empty arguments), self').
Proof. intros H. unfold handle_call_tool. rewrite H. reflexivity. Qed.

(** C4, as the specification states it, fails: for a reply that is a JSON
    object without [jobs], the load returns normally and the store is the
    empty list. *)
Lemma load_wrong_shape_not_raised :
  ¬ (∀ (src : source) (self : server),
       jobs_data self = [] →
       fetch_failed (src (fetches self)) ∨ wrong_shape (src (fetches self)) →
       ∃ e, (load_jobs_data src self).1 = Raise e ∧ DataSourceError e).
Proof.
  intros claim.
  destruct (claim src_no_jobs init) as (e & H & _);
    [reflexivity | right; exact I | discriminate H].
Qed.

(** C4, amended. Whenever the store is empty and the fetch fails (no reply,
    or a 4xx or 5xx status) or the body of the reply is not JSON or not a
    JSON object, the load raises the exception of the fetch, which reaches
    the caller of the tool handler as well, and the store stays empty; for a
    JSON object without a [jobs] member the load does not raise and the
    store is the empty list. *)
Theorem load_failure_propagates (src : source) (self : server) :
  jobs_data self = [] →
  (fetch_failed (src (fetches self)) ∨ not_an_object (src (fetches self)) →
   ∃ e, load_jobs_data src self = (Raise e, mk_server [] (S (fetches self)))
        ∧ DataSourceError e
        ∧ ∀ name arguments,
            handle_call_tool src name arguments self
            = (Raise e, mk_server [] (S (fetches self))))
  ∧ (∀ status_code,
       src (fetches self) = Response status_code (Object None) →
       ¬ 400 ≤ status_code < 600 →
       load_jobs_data src self = (Ok tt, mk_server [] (S (fetches self)))).
Proof.
  intros Hempty. split.
  - intros Hbad.
    assert (∃ e, load_jobs_data src self
                 = (Raise e, mk_server [] (S (fetches self)))) as [e He].
    { unfold load_jobs_data. rewrite Hempty.
      destruct (src (fetches self)) as [|code body]; [eauto |].
      destruct (raise_for_status_cases code) as [-> | E]; [eauto |].
      destruct Hbad as [Hcode | Hbody].
      - rewrite raise_for_status_error by exact Hcode. eauto.
      - rewrite E. destruct body as [| |jobs]; simpl; eauto. destruct Hbody. }
    exists e. split; [exact He |]. split.
    + apply load_raises in He. apply He.
    + intros name arguments. apply handle_call_tool_load_raises, He.
  - intros code Hreply Hcode. unfold load_jobs_data. rewrite Hempty, Hreply.
    unfold raise_for_status.
    destruct (400 <=? code) eqn:Hlo, (code <? 600) eqn:Hhi; simpl;
      try reflexivity.
    apply Nat.leb_le in Hlo. apply Nat.ltb_lt in Hhi. lia.
Qed.

Lemma load_failure_propagates_witness :
  jobs_data init = []
  ∧ ∃ e, load_jobs_data src_down init = (Raise e, mk_server [] 1)
         ∧ DataSourceError e
         ∧ ∀ name arguments,
             handle_call_tool src_down name arguments init
             = (Raise e, mk_server [] 1).
Proof.
  split; [reflexivity |].
  apply (load_failure_propagates src_down init eq_refl).
  left. exact I.
Defined.

(** C5. On a populated store a call of the load does nothing: it returns
    normally, the records and the number of calls made to the source are
    unchanged; so after a first load that populated a store the count is
    still one more than before that load. *)
Theorem load_twice_is_load_once (src : source) (self : server) :
  jobs_data self ≠ [] →
  load_jobs_data src self = (Ok tt, self)
  ∧ jobs_data (load_jobs_data src self).2 = jobs_data self
  ∧ fetches (load_jobs_data src self).2 = fetches self
  ∧ ∀ before, jobs_data before = [] →
              self = (load_jobs_data src before).2 →
              fetches (load_jobs_data src self).2 = S (fetches before).
Proof.
  intros Hfull.
  assert (H : load_jobs_data src self = (Ok tt, self)).
  { unfold load_jobs_data. destruct (jobs_data self); [congruence | reflexivity]. }
  rewrite H. repeat split. simpl.
  intros before Hempty ->. unfold load_jobs_data. rewrite Hempty.
  destruct (src (fetches before)) as [|code body]; [reflexivity |].
  destruct (raise_for_status code); [| reflexivity].
  destruct (jobs_of_body body); reflexivity.
Qed.

Lemma load_twice_is_load_once_witness :
  jobs_data (load_jobs_data src_two init).2 ≠ []
  ∧ load_jobs_data src_two (load_jobs_data src_two init).2
    = (Ok tt, mk_server [job1; job2] 1).
Proof.
  assert (H : jobs_data (load_jobs_data src_two init).2 ≠ []) by discriminate.
  split; [exact H |].
  exact (proj1 (load_twice_is_load_once src_two _ H)).
Defined.

(** C7. When the store is empty and the source answers 500, the load raises
    the HTTP error, the store is still empty afterwards, and the next load
    calls the source again. *)
Theorem load_500_then_retry (src : source) (self : server) (body : document) :
  jobs_data self = [] →
  src (fetches self) = Response 500 body →
  ∃ self',
    load_jobs_data src self = (Raise (HTTPError 500), self')
    ∧ DataSourceError (HTTPError 500)
    ∧ jobs_data self' = []
    ∧ fetches self' = S (fetches self)
    ∧ fetches (load_jobs_data src self').2 = S (S (fetches self)).
Proof.
  intros Hempty Hreply. exists (mk_server [] (S (fetches self))).
  split; [| split; [exact I | split; [reflexivity | split; [reflexivity |]]]].
  - unfold load_jobs_data. rewrite Hempty, Hreply. reflexivity.
  - unfold load_jobs_data. simpl.
    destruct (src (S (fetches self))) as [|code b]; [reflexivity |].
    destruct (raise_for_status code); [| reflexivity].
    destruct (jobs_of_body b); reflexivity.
Qed.

Lemma load_500_then_retry_witness :
  jobs_data init = []
  ∧ src_500 (fetches init) = Response 500 NotJson
  ∧ ∃ self',
      load_jobs_data src_500 init = (Raise (HTTPError 500), self')
      ∧ DataSourceError (HTTPError 500)
      ∧ jobs_data self' = []
      ∧ fetches self' = 1
      ∧ fetches (load_jobs_data src_500 self').2 = 2.
Proof.
  split; [reflexivity | split; [reflexivity |]].
  exact (load_500_then_retry src_500 init NotJson eq_refl eq_refl).
Defined.

(** ** Lookup without an id *)

Lemma get_job_details_missing_id (store : list Job.t)
    (arguments : option Args.t) :
  missing_id arguments →
  get_job_details store (default Args.empty arguments) = Raise job_id_required.
Proof.
  unfold get_job_details. intros [-> | ->]; reflexivity.
Qed.

(** C8, as the specification states it, fails: through the tool handler a
    lookup without id on an empty store first calls the data source, and
    when that fails the call ends with the error of the fetch. *)
Lemma lookup_without_id_loads_first :
  ¬ (∀ (src : source) (self : server) (arguments : option Args.t),
       missing_id arguments →
       ∃ e, handle_call_tool src "get_job_details" arguments self
            = (Raise e, self)
            ∧ InvalidArgument e).
Proof.
  intros claim.
  destruct (claim src_down init None) as (e & H & He); [left; reflexivity |].
  vm_compute in H. discriminate H.
Qed.

(** C8, amended. For every lookup whose id is absent or empty,
    [_get_job_details] raises the invalid-argument error whatever the store
    holds, before it reads the store; the tool handler loads the store
    before it dispatches, so through it the call ends with that error when
    the load succeeds (after a fetch when the store was empty) and with the
    error of the load when it fails. *)
Theorem lookup_without_id_invalid (src : source) (self : server)
    (arguments : option Args.t) :
  missing_id arguments →
  InvalidArgument job_id_required
  ∧ (∀ store, get_job_details store (default Args.empty arguments)
              = Raise job_id_required)
  ∧ handle_call_tool src "get_job_details" arguments self
    = (match (load_jobs_data src self).1 with
       | Ok _ => Raise job_id_required
       | Raise e => Raise e
       end, (load_jobs_data src self).2).
Proof.
  intros Hmissing. split; [reflexivity |].
  split; [intros store; apply get_job_details_missing_id, Hmissing |].
  destruct (load_jobs_data src self) as [[[]|e] self'] eqn:E; simpl.
  - rewrite (handle_call_tool_lookup _ _ _ _ E).
    rewrite get_job_details_missing_id by exact Hmissing. reflexivity.
  - apply handle_call_tool_load_raises, E.
Qed.

Lemma lookup_without_id_invalid_witness :
  missing_id (Some (id_only EmptyString))
  ∧ handle_call_tool src_two "get_job_details" (Some (id_only EmptyString)) init
    = (Raise job_id_required, mk_server [job1; job2] 1).
Proof.
  assert (H : missing_id (Some (id_only EmptyString))) by (right; reflexivity).
  split; [exact H |].
  exact (proj2 (proj2 (lookup_without_id_invalid src_two init _ H))).
Defined.

(** ** The lookup route of the HTTP adapter *)

Lemma not_found_message_not_json (job_id : string) :
  json_loads (Plain (not_found_message job_id)) = Raise JSONDecodeError.
Proof. reflexivity. Qed.

(** The texts [_get_job_details] returns: a serialised job or the not-found
    message. *)
Lemma get_job_details_text (store : list Job.t) (arguments : Args.t) (t : text) :
  get_job_details store arguments = Ok t →
  (∃ job, t = Json (JobDetails job))
  ∨ (∃ job_id, t = Plain (not_found_message job_id)).
Proof.
  unfold get_job_details. destruct (Args.job_id arguments) as [job_id|];
    [| discriminate].
  destruct (negb (Py.truthy job_id)); [discriminate |].
  destruct (next_with_id _ _); intros [= <-]; eauto.
Qed.

Lemma get_job_miss (job_server : server) (job_id : string) :
  job_id ≠ EmptyString →
  (∀ job, job ∈ jobs_data job_server → Job.id job ≠ job_id) →
  get_job job_server job_id = HTTPException 500 JSONDecodeError.
Proof.
  intros Hid Hmiss. unfold get_job. fold (id_only job_id).
  rewrite get_job_details_nonempty by exact Hid.
  apply next_with_id_none in Hmiss. rewrite Hmiss. reflexivity.
Qed.

(** C9 does not hold of the code. On a loaded store that has no job with id
    [99], [GET /jobs/99] answers with status 500: the not-found message is
    not JSON, so [json.loads] raises and the handler turns the exception
    into the same status as a failure of the engine, here the lookup
    without id. *)
Theorem get_job_miss_answers_500 :
  get_job (mk_server [job1] 1) "99" = HTTPException 500 JSONDecodeError
  ∧ get_job_details [job1] (id_only "99") = Ok (Plain (not_found_message "99"))
  ∧ get_job (mk_server [job1] 1) EmptyString
    = HTTPException 500 job_id_required
  ∧ status_of (get_job (mk_server [job1] 1) "99")
    = status_of (get_job (mk_server [job1] 1) EmptyString).
Proof. repeat split. Qed.

(** ** The order of strings and sorting *)

Section order_facts.
Implicit Types a b c : string.

Lemma compare_refl a : String.compare a a = Eq.
Proof.
  induction a as [|x a IH]; simpl; [reflexivity |].
  unfold Ascii.compare. rewrite N.compare_refl. exact IH.
Qed.

Lemma compare_lt_trans a b c :
  String.compare a b = Lt → String.compare b c = Lt →
  String.compare a c = Lt.
Proof.
  revert b c. induction a as [|x a IH]; intros [|y b] [|z c]; simpl;
    try congruence.
  destruct (Ascii.compare x y) eqn:Exy; try discriminate;
    destruct (Ascii.compare y z) eqn:Eyz; try discriminate; intros Hab Hbc.
  - apply Ascii.compare_eq_iff in Exy as ->. rewrite Eyz. eauto.
  - apply Ascii.compare_eq_iff in Exy as ->. rewrite Eyz. reflexivity.
  - apply Ascii.compare_eq_iff in Eyz as <-. rewrite Exy. reflexivity.
  - unfold Ascii.compare in *. rewrite N.compare_lt_iff in Exy, Eyz.
    assert (H : (N_of_ascii x < N_of_ascii z)%N) by lia.
    apply N.compare_lt_iff in H. rewrite H. reflexivity.
Qed.

Lemma str_le_cases a b : Py.str_le a b ↔ String.compare a b = Lt ∨ a = b.
Proof.
  unfold Py.str_le, String.leb. split.
  - destruct (String.compare a b) eqn:E; try discriminate; intros _.
    + right. apply String.compare_eq_iff, E.
    + left. reflexivity.
  - intros [-> | ->]; [reflexivity | rewrite compare_refl; reflexivity].
Qed.

Lemma str_lt_cases a b : Py.str_lt a b ↔ String.compare a b = Lt.
Proof.
  unfold Py.str_lt, String.ltb.
  destruct (String.compare a b); split; congruence.
Qed.

Lemma str_le_total : Total Py.str_le.
Proof. intros a b. apply String.leb_total. Qed.

Lemma str_le_trans : Transitive Py.str_le.
Proof.
  intros a b c. rewrite !str_le_cases.
  intros [Hab | ->] [Hbc | ->]; eauto using compare_lt_trans.
Qed.

Lemma str_le_lt a b : Py.str_le a b → a ≠ b → Py.str_lt a b.
Proof.
  rewrite str_le_cases, str_lt_cases. intros [H | H] Hne; [exact H | easy].
Qed.

(** [sorted] returns its argument rearranged in ascending order. *)
Lemma sorted_Permutation (l : list string) : Py.sorted l ≡ₚ l.
Proof. apply merge_sort_Permutation. Qed.

Lemma sorted_ascending (l : list string) :
  StronglySorted Py.str_le (Py.sorted l).
Proof.
  pose proof str_le_total. pose proof str_le_trans.
  apply StronglySorted_merge_sort; assumption.
Qed.

(** Without duplicates, ascending is strictly ascending. *)
Lemma ascending_strict (l : list string) :
  NoDup l → StronglySorted Py.str_le l → StronglySorted Py.str_lt l.
Proof.
  induction 2 as [|x l Hl IH Hx]; constructor.
  - apply IH. eapply NoDup_cons_1_2; eassumption.
  - apply NoDup_cons in H as [Hnotin _].
    rewrite Forall_forall in Hx |- *. intros y Hy.
    apply str_le_lt; [auto |]. intros ->. contradiction.
Qed.

(** What [sorted(list(s))] is for a set [s] of strings. *)
Lemma sorted_elements (s : gset string) :
  NoDup (Py.sorted (elements s))
  ∧ StronglySorted Py.str_le (Py.sorted (elements s))
  ∧ StronglySorted Py.str_lt (Py.sorted (elements s))
  ∧ ∀ x, x ∈ Py.sorted (elements s) ↔ x ∈ s.
Proof.
  assert (Hnd : NoDup (Py.sorted (elements s))).
  { rewrite sorted_Permutation. apply NoDup_elements. }
  split; [exact Hnd |]. split; [apply sorted_ascending |].
  split; [apply ascending_strict; [exact Hnd | apply sorted_ascending] |].
  intros x. rewrite sorted_Permutation. apply elem_of_elements.
Qed.

(** The result does not depend on the order in which the set is listed. *)
Lemma sorted_any_listing (l1 l2 : list string) :
  l1 ≡ₚ l2 → Py.sorted l1 = Py.sorted l2.
Proof.
  intros Hperm. pose proof str_le_trans.
  assert (AntiSymm (=) Py.str_le) by (intros a b; apply String.leb_antisym).
  apply (StronglySorted_unique Py.str_le); try apply sorted_ascending.
  rewrite !sorted_Permutation. exact Hperm.
Qed.
End order_facts.

(** ** Distinct companies and technologies *)

Lemma elem_of_update_all (all_techs : gset string) (store : list Job.t)
    (tech : string) :
  tech ∈ update_all all_techs store
  ↔ tech ∈ all_techs ∨ ∃ job, job ∈ store ∧ tech ∈ Job.tech_stack job.
Proof.
  revert all_techs. induction store as [|j rest IH]; intros all_techs; simpl.
  - split; [auto | intros [H | (job & Hin & _)]; [exact H | inversion Hin]].
  - rewrite IH, elem_of_union, elem_of_list_to_set. split.
    + intros [[H | H] | (job & Hin & H)]; [auto | |].
      * right. exists j. split; [apply list_elem_of_here | exact H].
      * right. exists job. split; [apply list_elem_of_further, Hin | exact H].
    + intros [H | (job & Hin & H)]; [auto |].
      apply elem_of_cons in Hin as [-> | Hin]; [auto | right; eauto].
Qed.

(** C6. For every store, the companies and the technologies returned hold
    no duplicates, are in ascending (hence strictly ascending) string order,
    list exactly the companies, resp. the technologies, of the records, and
    come with their length as count; a technology that several records
    share occurs once. *)
Theorem distinct_values_sorted_unique (store : list Job.t) :
  ∃ companies technologies : list string,
    get_companies store = Json (Companies (length companies) companies)
    ∧ get_tech_stacks store
      = Json (Technologies (length technologies) technologies)
    ∧ NoDup companies
    ∧ StronglySorted Py.str_le companies
    ∧ StronglySorted Py.str_lt companies
    ∧ (∀ c, c ∈ companies ↔ ∃ job, job ∈ store ∧ Job.company job = c)
    ∧ NoDup technologies
    ∧ StronglySorted Py.str_le technologies
    ∧ StronglySorted Py.str_lt technologies
    ∧ (∀ t, t ∈ technologies ↔ ∃ job, job ∈ store ∧ t ∈ Job.tech_stack job)
    ∧ (∀ t job, job ∈ store → t ∈ Job.tech_stack job →
                count_occ String.string_dec technologies t = 1).
Proof.
  destruct (sorted_elements (list_to_set (Job.company <$> store)))
    as (Hc1 & Hc2 & Hc3 & Hc4).
  destruct (sorted_elements (update_all ∅ store)) as (Ht1 & Ht2 & Ht3 & Ht4).
  assert (Htech : ∀ t, t ∈ Py.sorted (elements (update_all ∅ store))
                       ↔ ∃ job, job ∈ store ∧ t ∈ Job.tech_stack job).
  { intros t. rewrite Ht4, elem_of_update_all. split; [| auto].
    intros [H | H]; [| exact H]. exfalso. revert H. apply not_elem_of_empty. }
  eexists _, _. split; [reflexivity |]. split; [reflexivity |].
  split; [exact Hc1 |]. split; [exact Hc2 |]. split; [exact Hc3 |].
  split.
  { intros c. rewrite Hc4, elem_of_list_to_set, list_elem_of_fmap.
    split; intros (job & H1 & H2); exists job; auto. }
  split; [exact Ht1 |]. split; [exact Ht2 |]. split; [exact Ht3 |].
  split; [exact Htech |].
  intros t job Hjob Ht.
  apply NoDup_ListNoDup in Ht1.
  apply (proj1 (NoDup_count_occ' String.string_dec _) Ht1).
  apply list_elem_of_In, Htech. eauto.
Qed.

(** Two jobs that share [Go]: it is listed once. *)
Example technologies_of_two_jobs :
  get_tech_stacks [job1; job2]
  = Json (Technologies 3 ["Go"; "Postgres"; "Spark"])
  ∧ get_companies [job1; job2] = Json (Companies 1 ["Acme"]).
Proof. split; vm_compute; reflexivity. Qed.

(** ** The scenarios of the specification *)

(** The query is matched whatever its case. *)
Example scenario_query :
  search_jobs [job1] (query_only "ACME") = Json (SearchResult 1 [job1]).
Proof. reflexivity. Qed.

Example scenario_remote_false :
  search_jobs [job1] (Args.mk None None (Some false) None None None)
  = Json (SearchResult 0 []).
Proof. reflexivity. Qed.

Example scenario_lookup :
  get_job_details [job1] (id_only "1") = Ok (Json (JobDetails job1))
  ∧ get_job_details [job1] (id_only "99")
    = Ok (Plain "Job with ID '99' not found").
Proof. split; reflexivity. Qed.

(** Without criteria the search lists the whole store. *)
Lemma search_no_criteria (store : list Job.t) :
  jobs_in (search_jobs store Args.empty) = jobs_in (list_all_jobs store).
Proof.
  rewrite search_jobs_unfold. simpl.
  induction store as [|job rest IH]; simpl; [reflexivity |].
  f_equal. exact IH.
Qed.

(** A blank query keeps every job, the joining spaces match it. *)
Example blank_query_keeps_all :
  search_jobs [job1; job2] (query_only " ")
  = Json (SearchResult 2 [job1; job2]).
Proof. reflexivity. Qed.

(** * Further properties of the code *)

(** ** Substrings and lower case *)

Section substring_facts.
Implicit Types a b c needle hay : string.

Lemma append_cons (x : ascii) a b : String x a +:+ b = String x (a +:+ b).
Proof. reflexivity. Qed.

Lemma append_assoc a b c : (a +:+ b) +:+ c = a +:+ b +:+ c.
Proof.
  induction a as [|x a IH]; [reflexivity |].
  rewrite !append_cons, IH. reflexivity.
Qed.

Lemma append_empty_r a : a +:+ EmptyString = a.
Proof.
  induction a as [|x a IH]; [reflexivity |].
  rewrite append_cons, IH. reflexivity.
Qed.

Lemma lower_char_idem (x : ascii) :
  Py.lower_char (Py.lower_char x) = Py.lower_char x.
Proof. destruct x as [[] [] [] [] [] [] [] []]; reflexivity. Qed.

Lemma lower_idem a : Py.lower (Py.lower a) = Py.lower a.
Proof.
  induction a as [|x a IH]; simpl; [reflexivity |].
  rewrite lower_char_idem, IH. reflexivity.
Qed.

Lemma lower_app a b : Py.lower (a +:+ b) = Py.lower a +:+ Py.lower b.
Proof.
  induction a as [|x a IH]; [reflexivity |].
  rewrite append_cons. simpl. rewrite append_cons, IH. reflexivity.
Qed.

Lemma contains_refl a : contains a a.
Proof.
  exists EmptyString, EmptyString.
  change (a = a +:+ EmptyString). rewrite append_empty_r. reflexivity.
Qed.

Lemma contains_app_l needle a b : contains needle a → contains needle (a +:+ b).
Proof.
  intros (pre & post & ->). exists pre, (post +:+ b).
  rewrite !append_assoc. reflexivity.
Qed.

Lemma contains_app_r needle a b : contains needle b → contains needle (a +:+ b).
Proof.
  intros (pre & post & ->). exists (a +:+ pre), post.
  rewrite !append_assoc. reflexivity.
Qed.

Lemma contains_join needle (sep part : string) (parts : list string) :
  part ∈ parts → contains needle part → contains needle (Py.join sep parts).
Proof.
  intros Hin Hpart. induction parts as [|p rest IH]; [inversion Hin |].
  apply elem_of_cons in Hin as [<- | Hin].
  - destruct rest; simpl; [exact Hpart | apply contains_app_l, Hpart].
  - specialize (IH Hin). destruct rest as [|q rest]; [inversion Hin |].
    change (contains needle (p +:+ sep +:+ Py.join sep (q :: rest))).
    apply contains_app_r, contains_app_r, IH.
Qed.

Lemma lower_join (sep : string) (parts : list string) :
  Py.lower (Py.join sep parts) = Py.join (Py.lower sep) (Py.lower <$> parts).
Proof.
  induction parts as [|p [|q rest] IH]; try reflexivity.
  change (Py.lower (p +:+ sep +:+ Py.join sep (q :: rest))
          = Py.lower p +:+ Py.lower sep
            +:+ Py.join (Py.lower sep) (Py.lower <$> q :: rest)).
  rewrite !lower_app, IH. reflexivity.
Qed.

(** A query found in one field is found in the searched text. *)
Lemma in_some_field_searchable (query : string) (job : Job.t) :
  in_some_field query job → contains_ci query (searchable_text job).
Proof.
  unfold in_some_field, contains_ci, searchable_text.
  rewrite !lower_app, lower_join.
  intros [H | [H | [H | (tech & Hin & H)]]].
  - apply contains_app_l, H.
  - apply contains_app_r, contains_app_r, contains_app_l, H.
  - do 4 apply contains_app_r. apply contains_app_l, H.
  - do 6 apply contains_app_r.
    apply (contains_join _ _ (Py.lower tech)); [| exact H].
    apply list_elem_of_fmap. eauto.
Qed.

(** The searched text always has the spaces that join the fields. *)
Lemma searchable_text_has_space (job : Job.t) :
  contains " " (Py.lower (searchable_text job)).
Proof.
  unfold searchable_text. rewrite !lower_app.
  apply contains_app_r, contains_app_l. exists EmptyString, EmptyString.
  reflexivity.
Qed.
End substring_facts.

(** ** More on the search *)

Lemma filter_all {A} (f : A → bool) (l : list A) :
  (∀ x, x ∈ l → f x = true) → List.filter f l = l.
Proof.
  induction l as [|x l IH]; intros H; simpl; [reflexivity |].
  rewrite (H x) by apply list_elem_of_here. f_equal. apply IH.
  intros y Hy. apply H, list_elem_of_further, Hy.
Qed.

Lemma filter_ext_in {A} (f g : A → bool) (l : list A) :
  (∀ x, x ∈ l → f x = g x) → List.filter f l = List.filter g l.
Proof.
  induction l as [|x l IH]; intros H; simpl; [reflexivity |].
  rewrite (H x) by apply list_elem_of_here.
  rewrite IH; [reflexivity |]. intros y Hy. apply H, list_elem_of_further, Hy.
Qed.

Lemma filter_andb {A} (f g : A → bool) (l : list A) :
  List.filter (λ x, f x && g x) l = List.filter g (List.filter f l).
Proof.
  induction l as [|x l IH]; simpl; [reflexivity |].
  destruct (f x); simpl; [destruct (g x) |]; rewrite IH; reflexivity.
Qed.

Lemma search_jobs_kept_ext (store : list Job.t) (c c' : Args.t) :
  (∀ job, job ∈ store → kept c job = kept c' job) →
  search_jobs store c = search_jobs store c'.
Proof.
  intros H. rewrite !search_jobs_unfold.
  rewrite (filter_ext_in _ _ _ H). reflexivity.
Qed.

Lemma search_jobs_all (store : list Job.t) (c : Args.t) :
  (∀ job, job ∈ store → satisfies c job) →
  search_jobs store c = Json (SearchResult (length store) store).
Proof.
  intros H. rewrite search_jobs_unfold, filter_all; [reflexivity |].
  intros job Hin. apply kept_spec, H, Hin.
Qed.

Lemma get_lower_lower (v : option string) :
  get_lower (Py.lower <$> v) = get_lower v.
Proof. destruct v; simpl; [apply lower_idem | reflexivity]. Qed.

(** A search whose text filters are absent or empty and whose flags are
    absent returns the whole store, in its order, as [list_all_jobs] does. *)
Theorem search_without_filters (store : list Job.t) (c : Args.t) :
  (∀ s, Args.query c = Some s → s = EmptyString) →
  (∀ s, Args.location c = Some s → s = EmptyString) →
  (∀ s, Args.experience_level c = Some s → s = EmptyString) →
  Args.remote c = None →
  Args.visa_sponsorship c = None →
  search_jobs store c = Json (SearchResult (length store) store)
  ∧ jobs_in (search_jobs store c) = jobs_in (list_all_jobs store)
  ∧ total_in (search_jobs store c) = total_in (list_all_jobs store).
Proof.
  intros Hq Hl He Hr Hv.
  assert (H : search_jobs store c = Json (SearchResult (length store) store)).
  { apply search_jobs_all. intros job _. unfold satisfies, text_filter, flag_filter.
    rewrite Hr, Hv. repeat split; try discriminate; intros s Hs Hne;
      exfalso; apply Hne; auto. }
  rewrite H. repeat split.
Qed.

Lemma search_without_filters_witness :
  search_jobs [job1; job2]
    (Args.mk (Some EmptyString) None None None (Some EmptyString) (Some "7"))
  = Json (SearchResult 2 [job1; job2]).
Proof.
  refine (proj1 (search_without_filters [job1; job2]
                   (Args.mk (Some EmptyString) None None None
                      (Some EmptyString) (Some "7")) _ _ _ eq_refl eq_refl)).
  - intros s [= <-]. reflexivity.
  - intros s [=].
  - intros s [= <-]. reflexivity.
Defined.

(** The search of a store made of two parts is the search of the first part
    followed by the search of the second, and the totals add up. *)
Theorem search_of_appended_stores (store1 store2 : list Job.t) (c : Args.t) :
  jobs_in (search_jobs (store1 ++ store2) c)
  = jobs_in (search_jobs store1 c) ++ jobs_in (search_jobs store2 c)
  ∧ total_in (search_jobs (store1 ++ store2) c)
    = total_in (search_jobs store1 c) + total_in (search_jobs store2 c).
Proof.
  rewrite !search_jobs_unfold. simpl.
  rewrite List.filter_app, length_app. split; reflexivity.
Qed.

(** Searching in two stages, first by the query and the location, then in
    that result by the flags and the experience level, gives what the
    combined search gives; and searching a result again with the same
    criteria changes nothing. *)
Theorem search_in_stages (store : list Job.t)
    (q l : option string) (r v : option bool) (e id : option string) :
  search_jobs
    (jobs_in (search_jobs store (Args.mk q l None None None None)))
    (Args.mk None None r v e None)
  = search_jobs store (Args.mk q l r v e id)
  ∧ search_jobs (jobs_in (search_jobs store (Args.mk q l r v e id)))
      (Args.mk q l r v e id)
    = search_jobs store (Args.mk q l r v e id).
Proof.
  split.
  - rewrite (search_jobs_unfold store (Args.mk q l None None None None)).
    simpl jobs_in. rewrite !search_jobs_unfold, <- filter_andb.
    rewrite (filter_ext_in _ (kept (Args.mk q l r v e id)) store);
      [reflexivity |].
    intros job _. unfold kept, passes. simpl.
    rewrite !andb_true_r. rewrite <- !andb_assoc. reflexivity.
  - rewrite (search_jobs_unfold store). simpl jobs_in.
    apply search_jobs_all. intros job Hin.
    apply list_elem_of_In, filter_In in Hin as [_ Hin].
    apply kept_spec, Hin.
Qed.

(** The case of the query and of the text filters does not matter: the
    search with the filters in lower case returns the same result. *)
Theorem search_ignores_filter_case (store : list Job.t)
    (q l : option string) (r v : option bool) (e id : option string) :
  search_jobs store (Args.mk (Py.lower <$> q) (Py.lower <$> l) r v
                       (Py.lower <$> e) id)
  = search_jobs store (Args.mk q l r v e id).
Proof.
  apply search_jobs_kept_ext. intros job _. unfold kept. simpl.
  rewrite !get_lower_lower. reflexivity.
Qed.

(** A query that is a single space keeps every job of every store: the
    spaces that join the fields match it. *)
Theorem search_blank_query_keeps_all (store : list Job.t) :
  search_jobs store (query_only " ")
  = Json (SearchResult (length store) store).
Proof.
  apply search_jobs_all. intros job _.
  unfold satisfies, text_filter, flag_filter. simpl.
  repeat split; try discriminate.
  intros s [= <-] _. apply searchable_text_has_space.
Qed.

(** The text search is complete: a job of the store one of whose title,
    company, location or technologies contains the query, whatever the
    case, is in the result. *)
Theorem search_finds_field_matches (store : list Job.t) (query : string)
    (job : Job.t) :
  job ∈ store →
  in_some_field query job →
  job ∈ jobs_in (search_jobs store (query_only query)).
Proof.
  intros Hin Hfield. apply jobs_in_search. split; [exact Hin |].
  unfold satisfies, text_filter, flag_filter. simpl.
  repeat split; try discriminate.
  intros s [= <-] _. apply in_some_field_searchable, Hfield.
Qed.

Lemma search_finds_field_matches_witness :
  job2 ∈ jobs_in (search_jobs [job1; job2] (query_only "SPARK")).
Proof.
  apply (search_finds_field_matches [job1; job2] "SPARK" job2).
  - apply list_elem_of_further, list_elem_of_here.
  - right. right. right. exists "Spark".
    split; [apply list_elem_of_further, list_elem_of_here |].
    apply contains_refl.
Defined.

(** ** More on the lookup *)

Lemma next_with_id_app (store1 store2 : list Job.t) (job_id : string) :
  next_with_id (store1 ++ store2) job_id
  = match next_with_id store1 job_id with
    | Some job => Some job
    | None => next_with_id store2 job_id
    end.
Proof.
  induction store1 as [|j rest IH]; simpl; [reflexivity |].
  destruct (String.eqb (Job.id j) job_id); [reflexivity | exact IH].
Qed.

(** Under unique ids every job of the store with a non-empty id is returned
    by the lookup of its id. *)
Theorem lookup_returns_stored_job (store : list Job.t) (job : Job.t) :
  NoDup (Job.id <$> store) →
  job ∈ store →
  Job.id job ≠ EmptyString →
  get_job_details store (id_only (Job.id job)) = Ok (Json (JobDetails job)).
Proof.
  intros Hnd Hin Hid. rewrite get_job_details_nonempty by exact Hid.
  assert (H : next_with_id store (Job.id job) = Some job); [| rewrite H; reflexivity].
  apply next_with_id_first.
  apply list_elem_of_split in Hin as (before & after & ->).
  exists before, after. split; [reflexivity | split; [reflexivity |]].
  intros other Hother Heq.
  rewrite fmap_app in Hnd. apply NoDup_app in Hnd as (_ & Hdisj & _).
  apply (Hdisj (Job.id other)).
  - apply list_elem_of_fmap_2, Hother.
  - rewrite Heq. apply list_elem_of_fmap_2, list_elem_of_here.
Qed.

Lemma lookup_returns_stored_job_witness :
  get_job_details [job1; job2] (id_only "job-1") = Ok (Json (JobDetails job2)).
Proof.
  apply (lookup_returns_stored_job [job1; job2] job2).
  - apply NoDup_cons. split.
    + intros H. apply list_elem_of_In in H. destruct H as [H | []].
      discriminate H.
    + apply NoDup_singleton.
  - apply list_elem_of_further, list_elem_of_here.
  - discriminate.
Defined.

(** Whatever the arguments, a job the lookup returns is a job of the store,
    its id is the id asked for, and that id is not empty: a record whose id
    is the empty string is never returned. *)
Theorem lookup_answer_is_sound (store : list Job.t) (arguments : Args.t)
    (job : Job.t) :
  get_job_details store arguments = Ok (Json (JobDetails job)) →
  job ∈ store
  ∧ Args.job_id arguments = Some (Job.id job)
  ∧ Job.id job ≠ EmptyString.
Proof.
  unfold get_job_details.
  destruct (Args.job_id arguments) as [job_id|]; [| discriminate].
  destruct (Py.truthy job_id) eqn:Htruthy; simpl; [| discriminate].
  destruct (next_with_id store job_id) as [found|] eqn:E; [| discriminate].
  intros [= ->]. apply next_with_id_first in E as (before & after & -> & <- & _).
  split; [| split; [reflexivity | apply truthy_spec, Htruthy]].
  apply elem_of_app. right. apply list_elem_of_here.
Qed.

Lemma lookup_answer_is_sound_witness :
  job1 ∈ [job1; job2]
  ∧ Args.job_id (id_only "1") = Some (Job.id job1)
  ∧ Job.id job1 ≠ EmptyString.
Proof.
  exact (lookup_answer_is_sound [job1; job2] (id_only "1") job1 eq_refl).
Defined.

(** The lookup in a store made of two parts: a job found in the first part
    is the answer; otherwise the answer is that of the second part. *)
Theorem lookup_of_appended_stores (store1 store2 : list Job.t)
    (arguments : Args.t) :
  get_job_details (store1 ++ store2) arguments
  = match get_job_details store1 arguments with
    | Ok (Json p) => Ok (Json p)
    | _ => get_job_details store2 arguments
    end.
Proof.
  unfold get_job_details.
  destruct (Args.job_id arguments) as [job_id|]; [| reflexivity].
  destruct (negb (Py.truthy job_id)); [reflexivity |].
  rewrite next_with_id_app.
  destruct (next_with_id store1 job_id); reflexivity.
Qed.

(** ** More on the distinct values *)

Lemma names_of_companies (store : list Job.t) :
  names_in (get_companies store)
  = Py.sorted (elements (list_to_set (Job.company <$> store) : gset string)).
Proof. reflexivity. Qed.

Lemma names_of_technologies (store : list Job.t) :
  names_in (get_tech_stacks store)
  = Py.sorted (elements (update_all ∅ store)).
Proof. reflexivity. Qed.

Lemma elem_of_companies (store : list Job.t) (c : string) :
  c ∈ names_in (get_companies store)
  ↔ ∃ job, job ∈ store ∧ Job.company job = c.
Proof.
  rewrite names_of_companies, sorted_Permutation, elem_of_elements,
    elem_of_list_to_set, list_elem_of_fmap.
  split; intros (job & H1 & H2); exists job; auto.
Qed.

Lemma elem_of_technologies (store : list Job.t) (t : string) :
  t ∈ names_in (get_tech_stacks store)
  ↔ ∃ job, job ∈ store ∧ t ∈ Job.tech_stack job.
Proof.
  rewrite names_of_technologies, sorted_Permutation, elem_of_elements,
    elem_of_update_all.
  split; [intros [H | H]; [| exact H] | auto].
  exfalso. revert H. apply not_elem_of_empty.
Qed.

(** The distinct companies and technologies depend only on which jobs the
    store holds, not on their order or on how often a job is repeated. *)
Theorem distinct_values_of_same_jobs (store store' : list Job.t) :
  (∀ job, job ∈ store ↔ job ∈ store') →
  get_companies store = get_companies store'
  ∧ get_tech_stacks store = get_tech_stacks store'.
Proof.
  intros Hsame. unfold get_companies, get_tech_stacks.
  assert (Hc : (list_to_set (Job.company <$> store) : gset string)
               = list_to_set (Job.company <$> store')).
  { apply set_eq. intros c. rewrite !elem_of_list_to_set, !list_elem_of_fmap.
    split; intros (job & H1 & H2); exists job; split; auto; apply Hsame, H2. }
  assert (Ht : update_all ∅ store = update_all ∅ store').
  { apply set_eq. intros t. rewrite !elem_of_update_all.
    split; (intros [H | (job & H1 & H2)]; [left; exact H |]);
      right; exists job; split; auto; apply Hsame, H1. }
  rewrite Hc, Ht. split; reflexivity.
Qed.

Lemma distinct_values_of_same_jobs_witness :
  get_companies [job2; job1; job2] = get_companies [job1; job2]
  ∧ get_tech_stacks [job2; job1; job2] = get_tech_stacks [job1; job2].
Proof.
  apply (distinct_values_of_same_jobs [job2; job1; job2] [job1; job2]).
  intros job. rewrite !list_elem_of_In. simpl. tauto.
Defined.

(** There are at most as many distinct companies as jobs and at most as
    many distinct technologies as entries in the technology lists; and no
    company is listed exactly when the store is empty. *)
Theorem distinct_values_bounds (store : list Job.t) :
  total_in (get_companies store) ≤ length store
  ∧ total_in (get_tech_stacks store)
    ≤ length (mjoin (Job.tech_stack <$> store))
  ∧ (names_in (get_companies store) = [] ↔ store = []).
Proof.
  destruct (sorted_elements (list_to_set (Job.company <$> store)))
    as (Hc & _ & _ & _).
  destruct (sorted_elements (update_all ∅ store)) as (Ht & _ & _ & _).
  split; [| split].
  - change (length (names_in (get_companies store)) ≤ length store).
    rewrite <- (length_fmap Job.company store).
    apply submseteq_length, NoDup_submseteq; [exact Hc |].
    intros c Hin. apply elem_of_companies in Hin as (job & Hjob & <-).
    apply list_elem_of_fmap_2, Hjob.
  - change (length (names_in (get_tech_stacks store))
            ≤ length (mjoin (Job.tech_stack <$> store))).
    apply submseteq_length, NoDup_submseteq; [exact Ht |].
    intros t Hin. apply elem_of_technologies in Hin as (job & Hjob & Hin).
    apply list_elem_of_join. exists (Job.tech_stack job).
    split; [exact Hin | apply list_elem_of_fmap_2, Hjob].
  - split.
    + intros Hnil. destruct store as [|job rest]; [reflexivity |].
      assert (H : Job.company job ∈ names_in (get_companies (job :: rest))).
      { apply elem_of_companies. exists job.
        split; [apply list_elem_of_here | reflexivity]. }
      rewrite Hnil in H. inversion H.
    + intros ->. reflexivity.
Qed.

(** Every technology and every company in the lists of distinct values is
    found by the search: the search with it as query returns a job that
    has it. *)
Theorem listed_values_are_searchable (store : list Job.t) (name : string) :
  (name ∈ names_in (get_tech_stacks store) →
   ∃ job, job ∈ jobs_in (search_jobs store (query_only name))
          ∧ name ∈ Job.tech_stack job)
  ∧ (name ∈ names_in (get_companies store) →
     ∃ job, job ∈ jobs_in (search_jobs store (query_only name))
            ∧ Job.company job = name).
Proof.
  assert (Hfound : ∀ job, job ∈ store → in_some_field name job →
                          job ∈ jobs_in (search_jobs store (query_only name))).
  { intros job Hin Hfield. apply jobs_in_search. split; [exact Hin |].
    unfold satisfies, text_filter, flag_filter. simpl.
    repeat split; try discriminate.
    intros s [= <-] _. apply in_some_field_searchable, Hfield. }
  split.
  - intros Hin. apply elem_of_technologies in Hin as (job & Hjob & Hin).
    exists job. split; [| exact Hin]. apply Hfound; [exact Hjob |].
    right. right. right. exists name. split; [exact Hin | apply contains_refl].
  - intros Hin. apply elem_of_companies in Hin as (job & Hjob & <-).
    exists job. split; [| reflexivity]. apply Hfound; [exact Hjob |].
    right. left. apply contains_refl.
Qed.

Lemma listed_values_are_searchable_witness :
  ∃ job, job ∈ jobs_in (search_jobs [job1; job2] (query_only "Spark"))
         ∧ "Spark" ∈ Job.tech_stack job.
Proof.
  apply (proj1 (listed_values_are_searchable [job1; job2] "Spark")).
  vm_compute. apply list_elem_of_further, list_elem_of_further,
    list_elem_of_here.
Defined.

(** ** More on the tool handler and the store *)

Lemma load_populated (src : source) (self : server) :
  jobs_data self ≠ [] → load_jobs_data src self = (Ok tt, self).
Proof.
  intros H. unfold load_jobs_data.
  destruct (jobs_data self); [congruence | reflexivity].
Qed.

Lemma load_empty (src : source) (self : server) :
  jobs_data self = [] →
  ∃ r, load_jobs_data src self
       = (r, mk_server (jobs_served (src (fetches self))) (S (fetches self)))
       ∧ (jobs_served (src (fetches self)) ≠ [] → r = Ok tt).
Proof.
  intros H. unfold load_jobs_data, jobs_served. rewrite H.
  destruct (src (fetches self)) as [|code body]; [eexists; split; [reflexivity | congruence] |].
  destruct (raise_for_status code) as [[]|e].
  - destruct body as [| |[jobs|]]; simpl;
      eexists; (split; [reflexivity | congruence]).
  - destruct body as [| |[jobs|]];
      eexists; (split; [reflexivity | congruence]).
Qed.

Lemma handle_call_tool_state (src : source) (name : string)
    (arguments : option Args.t) (self : server) :
  (handle_call_tool src name arguments self).2 = (load_jobs_data src self).2.
Proof.
  unfold handle_call_tool.
  destruct (load_jobs_data src self) as [[[]|e] self']; [| reflexivity].
  repeat (destruct (String.eqb name _); [reflexivity |]). reflexivity.
Qed.

(** Once the store holds jobs no sequence of tool calls changes it or
    calls the data source: the records are immutable after the load. *)
Theorem populated_store_is_immutable (src : source)
    (calls : list (string * option Args.t)) (self : server) :
  jobs_data self ≠ [] → serve_all src calls self = self.
Proof.
  intros Hfull. induction calls as [|[name arguments] rest IH]; simpl;
    [reflexivity |].
  rewrite handle_call_tool_state, load_populated by exact Hfull. exact IH.
Qed.

Lemma populated_store_is_immutable_witness :
  serve_all src_down
    [("get_job_details", None); ("no_such_tool", Some Args.empty)]
    (mk_server [job1] 1)
  = mk_server [job1] 1.
Proof.
  apply (populated_store_is_immutable src_down _ (mk_server [job1] 1)).
  discriminate.
Defined.

(** A tool call, whatever its name and arguments, calls the data source
    exactly once when the store is empty and never otherwise. *)
Theorem fetch_exactly_when_empty (src : source) (name : string)
    (arguments : option Args.t) (self : server) :
  fetches (handle_call_tool src name arguments self).2
  = match jobs_data self with
    | [] => S (fetches self)
    | _ :: _ => fetches self
    end.
Proof.
  rewrite handle_call_tool_state. unfold load_jobs_data.
  destruct (jobs_data self); [| reflexivity].
  destruct (src (fetches self)) as [|code body]; [reflexivity |].
  destruct (raise_for_status code); [| reflexivity].
  destruct (jobs_of_body body); reflexivity.
Qed.

(** An empty result is not kept: as long as the replies of the source give
    no jobs (failures, or an empty or missing [jobs] array), every call
    leaves the store empty and calls the source again. *)
Theorem empty_store_refetches (src : source)
    (calls : list (string * option Args.t)) (self : server) :
  jobs_data self = [] →
  (∀ n, jobs_served (src n) = []) →
  jobs_data (serve_all src calls self) = []
  ∧ fetches (serve_all src calls self) = fetches self + length calls.
Proof.
  intros Hempty Hnone. revert self Hempty.
  induction calls as [|[name arguments] rest IH]; intros self Hempty; simpl.
  - split; [exact Hempty | lia].
  - rewrite handle_call_tool_state.
    destruct (load_empty src self Hempty) as (r & -> & _). simpl.
    rewrite Hnone.
    destruct (IH (mk_server [] (S (fetches self))) eq_refl) as [-> ->].
    simpl. split; [reflexivity | lia].
Qed.

Lemma empty_store_refetches_witness :
  jobs_data (serve_all src_no_jobs
               [("list_all_jobs", None); ("get_companies", None);
                ("list_all_jobs", None)] init) = []
  ∧ fetches (serve_all src_no_jobs
               [("list_all_jobs", None); ("get_companies", None);
                ("list_all_jobs", None)] init) = 3.
Proof.
  exact (empty_store_refetches src_no_jobs _ init eq_refl (λ _, eq_refl)).
Defined.

(** A name that is none of the five tools raises the unknown-tool error,
    but only after the store was loaded: the load comes first and its
    failure is what the caller gets. *)
Theorem unknown_tool_after_load (src : source) (name : string)
    (arguments : option Args.t) (self : server) :
  name ∉ tool_names →
  handle_call_tool src name arguments self
  = (match (load_jobs_data src self).1 with
     | Ok _ => Raise (ValueError ("Unknown tool: " +:+ name))
     | Raise e => Raise e
     end, (load_jobs_data src self).2).
Proof.
  intros Hname. unfold handle_call_tool.
  destruct (load_jobs_data src self) as [[[]|e] self']; [| reflexivity].
  simpl.
  repeat match goal with
  | |- context [String.eqb name ?s] =>
    destruct (String.eqb_spec name s) as [->|_];
      [exfalso; apply Hname; unfold tool_names; set_solver |]
  end.
  reflexivity.
Qed.

Lemma unknown_tool_after_load_witness :
  handle_call_tool src_two "Search_Jobs" None init
  = (Raise (ValueError "Unknown tool: Search_Jobs"), mk_server [job1; job2] 1).
Proof.
  apply (unknown_tool_after_load src_two "Search_Jobs" None init).
  unfold tool_names. intros H. apply list_elem_of_In in H. simpl in H.
  repeat (destruct H as [H | H]; [discriminate H |]). exact H.
Defined.

(** The first call of a fresh server whose source answers with a [jobs]
    array under a status that does not raise lists exactly that array, in
    its order, and keeps it as the store. *)
Theorem first_call_lists_source_jobs (src : source) (status_code : nat)
    (jobs : list Job.t) :
  src 0 = Response status_code (Object (Some jobs)) →
  ¬ 400 ≤ status_code < 600 →
  handle_call_tool src "list_all_jobs" None init
  = (Ok (Json (AllJobs (length jobs) jobs)), mk_server jobs 1).
Proof.
  intros Hreply Hcode. unfold handle_call_tool, load_jobs_data. simpl.
  rewrite Hreply. unfold raise_for_status.
  destruct (400 <=? status_code) eqn:Hlo, (status_code <? 600) eqn:Hhi; simpl;
    try reflexivity.
  apply Nat.leb_le in Hlo. apply Nat.ltb_lt in Hhi. lia.
Qed.

Lemma first_call_lists_source_jobs_witness :
  handle_call_tool src_two "list_all_jobs" None init
  = (Ok (Json (AllJobs 2 [job1; job2])), mk_server [job1; job2] 1).
Proof.
  apply (first_call_lists_source_jobs src_two 200 [job1; job2] eq_refl). lia.
Defined.



(** ** The routes of the HTTP adapter *)

Lemma get_job_hit (job_server : server) (job_id : string) (job : Job.t) :
  job_id ≠ EmptyString →
  next_with_id (jobs_data job_server) job_id = Some job →
  get_job job_server job_id = Http200 (JobDetails job).
Proof.
  intros Hid Hfound. unfold get_job. fold (id_only job_id).
  rewrite get_job_details_nonempty by exact Hid. rewrite Hfound. reflexivity.
Qed.



Lemma search_args_kept (query location : string)
    (remote visa_sponsorship : option bool) (experience_level : string)
    (job : Job.t) :
  kept (Web.search_args query location remote visa_sponsorship
          experience_level) job
  = kept (Args.mk (Some query) (Some location) remote visa_sponsorship
            (Some experience_level) None) job.
Proof.
  unfold kept, Web.search_args. simpl.
  destruct location, experience_level; reflexivity.
Qed.

(** The search route always answers 200, with the result of the engine's
    search for the five parameters as they are given: leaving the empty
    ones out of the criteria changes nothing; with the defaults of the
    signature the answer is the whole store. *)
Theorem web_search_is_engine_search (job_server : server)
    (query location : string) (remote visa_sponsorship : option bool)
    (experience_level : string) :
  (∃ p, search_jobs (jobs_data job_server)
          (Args.mk (Some query) (Some location) remote visa_sponsorship
             (Some experience_level) None) = Json p
        ∧ Web.search_jobs job_server query location remote visa_sponsorship
            experience_level = Http200 p)
  ∧ Web.search_jobs job_server EmptyString EmptyString None None EmptyString
    = Http200 (SearchResult (length (jobs_data job_server))
                 (jobs_data job_server)).
Proof.
  split.
  - eexists. split; [apply search_jobs_unfold |].
    unfold Web.search_jobs. rewrite search_jobs_unfold. simpl.
    rewrite (filter_ext_in _ _ _
               (λ job _, search_args_kept query location remote
                           visa_sponsorship experience_level job)).
    reflexivity.
  - unfold Web.search_jobs.
    rewrite search_jobs_all; [reflexivity |].
    intros job _. unfold satisfies, text_filter, flag_filter. simpl.
    repeat split; try discriminate. intros s [= <-] H. congruence.
Qed.

(** ** The client of the deployed API *)

Lemma get_json_sent (a : Client.api) (path : string) (params : Args.t)
    (r : http_response) :
  a path params = Client.sent r →
  Client.get_json a path params
  = match r with
    | Http200 p => Ok (Client.Payload p)
    | HTTPException status_code e =>
      match raise_for_status status_code with
      | Raise e' => Raise e'
      | Ok _ => Ok (Client.Detail e)
      end
    end.
Proof.
  intros H. unfold Client.get_json. rewrite H. destruct r; reflexivity.
Qed.

Lemma client_params_kept (arguments : Args.t) (job : Job.t) :
  let params := Client.search_params arguments in
  kept (Web.search_args (default EmptyString (Args.query params))
          (default EmptyString (Args.location params))
          (Args.remote params) (Args.visa_sponsorship params)
          (default EmptyString (Args.experience_level params))) job
  = kept arguments job.
Proof.
  simpl. rewrite search_args_kept. unfold kept, Client.search_params. simpl.
  destruct (Args.query arguments) as [[|? ?]|],
    (Args.location arguments) as [[|? ?]|],
    (Args.experience_level arguments) as [[|? ?]|]; reflexivity.
Qed.

(** When the API serves the search route of a job server, the search tool
    of the client returns the serialised result of the engine's search on
    that server's store for the same arguments. *)
Theorem client_search_is_engine_search (a : Client.api) (job_server : server)
    (arguments : option Args.t) :
  Client.serves_search a job_server →
  ∃ p, search_jobs (jobs_data job_server) (default Args.empty arguments)
       = Json p
       ∧ Client.handle_call_tool a "search_jobs" arguments
         = Client.Dumps (Client.Payload p).
Proof.
  intros Hserves. eexists. split; [apply search_jobs_unfold |].
  unfold Client.handle_call_tool, Client.search_jobs. simpl.
  rewrite (get_json_sent _ _ _ _ (Hserves _)).
  unfold Web.search_jobs. rewrite search_jobs_unfold. simpl.
  rewrite (filter_ext_in _ _ _
             (λ job _, client_params_kept (default Args.empty arguments) job)).
  reflexivity.
Qed.

Lemma client_search_is_engine_search_witness :
  ∃ p, search_jobs [job1; job2] (query_only "berlin") = Json p
       ∧ Client.handle_call_tool (Client.sample_api (mk_server [job1; job2] 1))
           "search_jobs" (Some (query_only "berlin"))
         = Client.Dumps (Client.Payload p).
Proof.
  apply (client_search_is_engine_search
           (Client.sample_api (mk_server [job1; job2] 1))
           (mk_server [job1; job2] 1) (Some (query_only "berlin"))).
  intros params. reflexivity.
Defined.

(** A lookup without id and a call of an unknown tool are answered by the
    client with the error text alone, whatever the API would reply: no
    reply is read. *)
Theorem client_rejects_without_request (a : Client.api) (name : string)
    (arguments : option Args.t) :
  (missing_id arguments →
   Client.handle_call_tool a "get_job_details" arguments
   = Client.ErrorText job_id_required)
  ∧ (name ∉ tool_names →
     Client.handle_call_tool a name arguments
     = Client.ErrorText (ValueError ("Unknown tool: " +:+ name))).
Proof.
  split.
  - unfold missing_id, Client.handle_call_tool, Client.get_job_details. simpl.
    intros [-> | ->]; reflexivity.
  - intros Hname. unfold Client.handle_call_tool.
    repeat match goal with
    | |- context [String.eqb name ?s] =>
      destruct (String.eqb_spec name s) as [->|_];
        [exfalso; apply Hname; unfold tool_names; set_solver |]
    end.
    reflexivity.
Qed.

Lemma client_rejects_without_request_witness :
  Client.handle_call_tool (λ _ _, Client.Unreachable) "get_job_details" None
  = Client.ErrorText job_id_required.
Proof.
  apply (proj1 (client_rejects_without_request (λ _ _, Client.Unreachable)
                  "get_job_details" None)).
  left. reflexivity.
Defined.

(** When the API serves the lookup route of a job server for a non-empty
    id, the lookup tool of the client returns the serialised job when the
    store has one with that id, and the error text of the status 500 when
    it has none. *)
Theorem client_lookup_through_adapter (a : Client.api) (job_server : server)
    (job_id : string) :
  job_id ≠ EmptyString →
  Client.serves_lookup a job_server job_id →
  Client.handle_call_tool a "get_job_details" (Some (id_only job_id))
  = match next_with_id (jobs_data job_server) job_id with
    | Some job => Client.Dumps (Client.Payload (JobDetails job))
    | None => Client.ErrorText (HTTPError 500)
    end.
Proof.
  intros Hid Hserves. unfold Client.handle_call_tool, Client.get_job_details.
  simpl. apply truthy_spec in Hid as Htruthy. rewrite Htruthy. simpl.
  rewrite (get_json_sent _ _ _ _ Hserves).
  destruct (next_with_id (jobs_data job_server) job_id) as [job|] eqn:E.
  - rewrite (get_job_hit _ _ _ Hid E). reflexivity.
  - rewrite (get_job_miss _ _ Hid (proj1 (next_with_id_none _ _) E)).
    reflexivity.
Qed.

Lemma client_lookup_through_adapter_witness :
  Client.handle_call_tool (Client.sample_api (mk_server [job1] 1))
    "get_job_details" (Some (id_only "99"))
  = Client.ErrorText (HTTPError 500).
Proof.
  apply (client_lookup_through_adapter
           (Client.sample_api (mk_server [job1] 1)) (mk_server [job1] 1) "99").
  - discriminate.
  - reflexivity.
Defined.

Lemma load_ok_store (src : source) (self self' : server) :
  jobs_data self = [] →
  load_jobs_data src self = (Ok tt, self') →
  self' = mk_server (jobs_served (src (fetches self))) (S (fetches self)).
Proof.
  intros Hempty H. destruct (load_empty src self Hempty) as (r & E & _).
  rewrite E in H. injection H as _ <-. reflexivity.
Qed.

(** After a startup that succeeded the adapter serves the jobs the source
    sent with its first reply: the listing route answers 200 with them, in
    their order, and the routes of the distinct values answer 200 with the
    companies, resp. the technologies, of exactly these jobs. *)
Theorem web_routes_after_startup (src : source) (job_server : server) :
  Web.startup src = (Ok tt, job_server) →
  Web.list_jobs job_server
  = Http200 (AllJobs (length (jobs_served (src 0))) (jobs_served (src 0)))
  ∧ ∃ companies technologies,
      Web.get_companies job_server
      = Http200 (Companies (length companies) companies)
      ∧ Web.get_technologies job_server
        = Http200 (Technologies (length technologies) technologies)
      ∧ (∀ c, c ∈ companies
              ↔ ∃ job, job ∈ jobs_served (src 0) ∧ Job.company job = c)
      ∧ (∀ t, t ∈ technologies
              ↔ ∃ job, job ∈ jobs_served (src 0) ∧ t ∈ Job.tech_stack job).
Proof.
  intros H. apply load_ok_store in H; [| reflexivity]. subst job_server.
  simpl. split; [reflexivity |].
  eexists _, _. split; [reflexivity |]. split; [reflexivity |].
  split; [apply elem_of_companies | apply elem_of_technologies].
Qed.

Lemma web_routes_after_startup_witness :
  Web.list_jobs (mk_server [job1; job2] 1)
  = Http200 (AllJobs 2 [job1; job2]).
Proof.
  exact (proj1 (web_routes_after_startup src_two (mk_server [job1; job2] 1)
                  eq_refl)).
Defined.

(** When the API gives one and the same reply to every request, each of the
    five tools of the client (the lookup with an id) returns: the error
    text of the failed request when there is no reply, that of the status
    when it is a 4xx or 5xx, that of the decoding when the body is not JSON,
    and the serialised body otherwise. *)
Theorem client_relays_reply (r : Client.api_reply) (name : string)
    (arguments : option Args.t) :
  name ∈ tool_names →
  (name = "get_job_details" → ¬ missing_id arguments) →
  Client.handle_call_tool (λ _ _, r) name arguments
  = match r with
    | Client.Unreachable => Client.ErrorText RequestException
    | Client.Reply status_code body =>
      match raise_for_status status_code, body with
      | Raise e, _ => Client.ErrorText e
      | Ok _, None => Client.ErrorText JSONDecodeError
      | Ok _, Some b => Client.Dumps b
      end
    end.
Proof.
  intros Hname Hid.
  assert (Hget : ∀ path params,
            Client.get_json (λ _ _, r) path params
            = match r with
              | Client.Unreachable => Raise RequestException
              | Client.Reply status_code body =>
                match raise_for_status status_code, body with
                | Raise e, _ => Raise e
                | Ok _, None => Raise JSONDecodeError
                | Ok _, Some b => Ok b
                end
              end).
  { intros path params. unfold Client.get_json.
    destruct r as [|code body]; [reflexivity |].
    destruct (raise_for_status code), body; reflexivity. }
  assert (Hout : ∀ path params,
            match Client.get_json (λ _ _, r) path params with
            | Ok b => Client.Dumps b
            | Raise e => Client.ErrorText e
            end
            = match r with
              | Client.Unreachable => Client.ErrorText RequestException
              | Client.Reply status_code body =>
                match raise_for_status status_code, body with
                | Raise e, _ => Client.ErrorText e
                | Ok _, None => Client.ErrorText JSONDecodeError
                | Ok _, Some b => Client.Dumps b
                end
              end).
  { intros path params. rewrite Hget. destruct r as [|code body]; [reflexivity |].
    destruct (raise_for_status code), body; reflexivity. }
  unfold tool_names in Hname. apply list_elem_of_In in Hname. simpl in Hname.
  destruct Hname as [<- | [<- | [<- | [<- | [<- | []]]]]];
    unfold Client.handle_call_tool; simpl; try apply Hout.
  specialize (Hid eq_refl). unfold missing_id in Hid.
  unfold Client.get_job_details.
  destruct (Args.job_id (default Args.empty arguments)) as [[|c s]|];
    [exfalso; auto | | exfalso; auto].
  simpl. apply Hout.
Qed.

Lemma client_relays_reply_witness :
  Client.handle_call_tool (λ _ _, Client.Reply 503 None) "get_companies" None
  = Client.ErrorText (HTTPError 503).
Proof.
  apply (client_relays_reply (Client.Reply 503 None) "get_companies" None).
  - unfold tool_names. apply list_elem_of_In. simpl. tauto.
  - discriminate.
Defined.
